(** * deno-ts-importer: the transformation engine of [TsImporter]

    A shallow embedding of [lib/ts_importer.ts] (the class [TsImporter]),
    of [lib/replace_imports.ts] (the part that decides which specifiers the
    replacer sees) and of [lib/ts_transpiler.ts], with the theorems that
    settle the properties stated about them.

    Conventions of the embedding.
    - A JavaScript string is a [string]; [===] is [String.eqb],
      [startsWith] is a prefix test, [slice(n)] drops [n] characters.
      A character of the model stands for one UTF-16 code unit; where a
      statement counts columns it is made for ASCII text ([Js.isAscii]),
      for which the code units, the characters and the bytes coincide.
    - A plain object used as a table ([Imports], [Scopes]) is an association
      list in the order [Object.entries] yields it, with unique keys; the
      spread [{...a, ...b}] sets the properties of [a], then those of [b].
      The order is the insertion order, which is the order of JavaScript
      for keys that are not integer indices.
    - A [Map] whose iteration order the code relies on is an association
      list with the insertion discipline of [Map.prototype.set]; a [Map]
      or [Set] that is only looked up is a [gmap] or a [gset].
    - The platform (URL parsing, file system, network, the type stripper,
      the dependency extractor, the functions of [cache.ts] and
      [replace_import_meta.ts]) is a record [Host] that every operation
      takes as a parameter.
    - An [async] function is run to completion where it is awaited: the
      dependencies of a module, which the code starts together and joins
      with [Promise.all], are processed one after the other in the order
      in which the code starts them.  Where the [catch] handler of a
      dependency throws, the [Promise.all] of the code rejects at once
      and the other dependencies finish later; the embedding lets them
      finish first. *)

From Stdlib Require Import String Ascii List Bool Arith Lia.
From stdpp Require Import base option gmap strings list fin_maps fin_sets
  sorting.
Import ListNotations.

Local Open Scope string_scope.
Local Open Scope list_scope.

#[local] Set Warnings "-clear-no-such-hyp".

(** ** JavaScript strings *)

Module Js.

(** [s.startsWith(p)] *)
Definition startsWith (s p : string) : bool := String.prefix p s.

(** [s.slice(n)] for [0 <= n] *)
Fixpoint slice (s : string) (n : nat) : string :=
  match n, s with
  | 0, _ => s
  | S _, EmptyString => EmptyString
  | S k, String _ r => slice r k
  end.

(** [s[0]], [None] standing for [undefined] *)
Definition firstChar (s : string) : option ascii :=
  match s with
  | EmptyString => None
  | String c _ => Some c
  end.

(** [s.toLowerCase()] on ASCII letters, for the [/i] flag of a regular
    expression whose pattern is ASCII *)
Definition lowerAscii (c : ascii) : ascii :=
  let n := nat_of_ascii c in
  if Nat.leb 65 n && Nat.leb n 90 then ascii_of_nat (n + 32) else c.

Fixpoint toLowerCase (s : string) : string :=
  match s with
  | EmptyString => EmptyString
  | String c r => String (lowerAscii c) (toLowerCase r)
  end.

(** the truthiness of a string: only the empty string is falsy *)
Definition truthy (s : string) : bool :=
  match s with EmptyString => false | _ => true end.

(** the text is ASCII: every code unit is below 128 *)
Definition isAscii (s : string) : bool :=
  forallb (fun c => Nat.ltb (nat_of_ascii c) 128) (list_ascii_of_string s).

End Js.

(** ** Plain objects as ordered tables *)

Module Obj.
Section Table.
Context {V : Type}.

(** [o[k]] *)
Fixpoint get (o : list (string * V)) (k : string) : option V :=
  match o with
  | [] => None
  | (k', v) :: r => if String.eqb k' k then Some v else get r k
  end.

(** [k in o] *)
Definition has (o : list (string * V)) (k : string) : bool :=
  match get o k with Some _ => true | None => false end.

(** [o[k] = v]: an existing property keeps its place, a new one goes
    last *)
Fixpoint set (o : list (string * V)) (k : string) (v : V)
  : list (string * V) :=
  match o with
  | [] => [(k, v)]
  | (k', v') :: r =>
      if String.eqb k' k then (k', v) :: r else (k', v') :: set r k v
  end.

(** [{...a, ...b}] *)
Definition assign (a b : list (string * V)) : list (string * V) :=
  fold_left (fun o kv => set o (fst kv) (snd kv)) b a.

Definition spread (a b : list (string * V)) : list (string * V) :=
  assign (assign [] a) b.
End Table.
End Obj.

(** ** Import maps ([import_map.ts], as [ts_importer.ts] uses it) *)

Definition Imports : Type := list (string * string).
Definition Scopes : Type := list (string * Imports).

Record ImportMap : Type := mkImportMap {
  imports : Imports;
  scopes : option Scopes
}.

(** ** The resolver: [TsImporter.#createOptimizedReplacer] *)

(** [specifier === key || specifier.startsWith(key + "/")] *)
Definition keyMatches (specifier key : string) : bool :=
  String.eqb specifier key || Js.startsWith specifier (key +:+ "/").

(** One [for (const [key, value] of entries)] loop: the first entry that
    matches returns [value + specifier.slice(key.length)]. *)
Fixpoint matchEntries (entries : list (string * string)) (specifier : string)
  : option string :=
  match entries with
  | [] => None
  | (key, value) :: rest =>
      if keyMatches specifier key
      then Some (value +:+ Js.slice specifier (String.length key))
      else matchEntries rest specifier
  end.

(** The loop over [scopeEntries]: a scope is looked into when
    [urlString.startsWith(scope)]. *)
Fixpoint matchScopes (urlString : string)
    (scopeEntries : list (string * list (string * string)))
    (specifier : string) : option string :=
  match scopeEntries with
  | [] => None
  | (scope, entries) :: rest =>
      if Js.startsWith urlString scope
      then match matchEntries entries specifier with
           | Some r => Some r
           | None => matchScopes urlString rest specifier
           end
      else matchScopes urlString rest specifier
  end.

Definition createOptimizedReplacer (urlString : string)
    (importEntries : list (string * string))
    (scopeEntries : list (string * list (string * string)))
    (specifier : string) : string :=
  (* Check imports first (most common case) *)
  match matchEntries importEntries specifier with
  | Some r => r
  | None =>
      (* Check scopes if available *)
      if Nat.ltb 0 (length scopeEntries)
      then match matchScopes urlString scopeEntries specifier with
           | Some r => r
           | None => specifier
           end
      else specifier
  end.

(** The pre-processing of [#transformModule] that feeds the replacer. *)
Definition importEntriesOf (importMap : option ImportMap)
  : list (string * string) :=
  match importMap with
  | Some im => imports im
  | None => []
  end.

(** [scopeEntries.set(scope, Object.entries(imports))] for each scope. *)
Definition scopeEntriesOf (importMap : option ImportMap)
  : list (string * list (string * string)) :=
  match importMap with
  | Some im =>
      match scopes im with
      | Some sc => Obj.assign [] sc
      | None => []
      end
  | None => []
  end.

Definition applyImportMapToSpecifier (urlString : string)
    (importMap : option ImportMap) (specifier : string) : string :=
  createOptimizedReplacer urlString (importEntriesOf importMap)
    (scopeEntriesOf importMap) specifier.

(** ** Specifier classification ([ts_importer.ts], [replace_imports.ts]) *)

Definition isRelativeOrFileUrl (specifier : string) : bool :=
  match Js.firstChar specifier with
  | Some c => Ascii.eqb c "." || Ascii.eqb c "/"
              || Js.startsWith specifier "file://"
  | None => Js.startsWith specifier "file://"
  end.

Definition isHttpUrl (specifier : string) : bool :=
  Js.startsWith specifier "http://" || Js.startsWith specifier "https://".

Definition isJsr (specifier : string) : bool := Js.startsWith specifier "jsr:".

Definition isNpm (specifier : string) : bool := Js.startsWith specifier "npm:".

(** [/^(https?:|data:)/i.test(specifier)] *)
Definition isRemoteSpecifier (specifier : string) : bool :=
  let l := Js.toLowerCase specifier in
  Js.startsWith l "http:" || Js.startsWith l "https:" || Js.startsWith l "data:".

(** [/^(jsr:|npm:)/i.test(specifier)] *)
Definition isJsrOrNpmSpecifier (specifier : string) : bool :=
  let l := Js.toLowerCase specifier in
  Js.startsWith l "jsr:" || Js.startsWith l "npm:".

(** ** The platform *)

(** A [Response] of [fetch]. *)
Record Response : Type := mkResponse {
  ok : bool;
  statusText : string;
  text : string
}.

Inductive TranspileMode : Type := transpile | strip | passthrough.

Definition modeName (m : TranspileMode) : string :=
  match m with
  | transpile => "transpile"
  | strip => "strip"
  | passthrough => "passthrough"
  end.

(** [ts.CompilerOptions], as the list of the options that are set. *)
Definition CompilerOptions : Type := list (string * string).

Record TranspileOptions : Type := mkTranspileOptions {
  mode : option TranspileMode;
  compilerOptions : option CompilerOptions
}.

(** What a loaded module evaluates to. *)
Definition ModuleValue : Type := string.

(** Everything [TsImporter] calls and does not define.  A URL object is
    represented by its [href]; [None] stands for a thrown exception, except
    where stated. *)
Record Host : Type := mkHost {
  (** [new URL(input, base).href], [new URL(input).href] without a base *)
  URL_new : string -> option string -> option string;
  (** [url.protocol] of a parsed URL, with the colon *)
  URL_protocol : string -> string;
  (** [import.meta.url] of [ts_importer.ts] *)
  import_meta_url : string;
  (** [Deno.cwd()] *)
  cwd : string;
  (** [Deno.env.get("DENO_TS_IMPORTER_TRANSPILE_MODE")], [None] for
      [undefined] *)
  env_transpile_mode : option string;
  (** [isAbsolute], [join] and [fromFileUrl] of [@std/path] *)
  isAbsolute : string -> bool;
  join : string -> string -> string;
  fromFileUrl : string -> string;
  (** [cache.ts] *)
  getDefaultDenoCacheDir : string;
  getCachePath : string -> string -> ImportMap -> string;
  (** the files [Deno.readTextFile] can read, by file URL *)
  files : gmap string string;
  (** the responses [fetch] obtains, by URL; absent when [fetch] rejects *)
  remote : gmap string Response;
  (** whether [ensureDir] and [Deno.writeTextFile] succeed for a cache URL *)
  writable : string -> bool;
  (** [stripTypes] of [@fcrozatier/type-strip] *)
  stripTypes : string -> option string;
  (** [ts.transpileModule(code, {compilerOptions}).outputText], given the
      caller's overrides of the default options *)
  transpileModule : CompilerOptions -> string -> option string;
  (** the regular expressions of [#hasImports] and [#hasImportMetaUrl] *)
  hasImports : string -> bool;
  hasImportMetaUrl : string -> bool;
  (** [replace_import_meta.ts] *)
  replaceImportMeta : string -> string -> string;
  createOriginalUrlComment : string -> string;
  (** the specifiers of [targetModule.dependencies] in the graph that
      [createGraph] builds for a module's text, in order; [None] when the
      module has no dependency list *)
  graphDependencies : string -> string -> option (list string);
  (** [denoLoader.resolve] of a [jsr:] or [npm:] specifier, followed by
      the load and [cacheInfo] when the result is not a file URL *)
  resolveRegistry : string -> option string;
  (** the text with the collected specifier replacements applied: the
      spans of the graph, [findMissingImports] and [applyReplacements] *)
  rewriteImports : string -> list (string * string) -> string;
  (** [findDenoConfigFile] of [@brad-jones/deno-config]; [None] for
      [undefined] *)
  findDenoConfigFile : string -> option string;
  (** [loadImportMap] of [load_import_map.ts]; the inner [None] for
      [undefined] *)
  loadImportMap : string -> option (option ImportMap);
  (** the dynamic [import(url)], given the files of the cache directory *)
  dynamicImport : gmap string string -> string -> option ModuleValue
}.

(** ** [ts_transpiler.ts] *)

Definition transpileTypeScript (H : Host) (code : string)
    (options : TranspileOptions) : option string :=
  let transpileMode :=
    match mode options with
    | Some m => modeName m
    | None =>
        match env_transpile_mode H with
        | Some e => e
        | None => "strip"
        end
    end in
  if String.eqb transpileMode "passthrough" then Some code
  else if String.eqb transpileMode "strip" then stripTypes H code
  else transpileModule H
         (match compilerOptions options with Some o => o | None => [] end)
         code.

(** ** [replace_imports.ts] *)

(** [collectReplacements]: the [specifierReplacements] map it fills, and
    the arguments of the calls it makes to [replacer], in order. *)
Fixpoint collectReplacements (H : Host) (dependencies : list string)
    (replacer : string -> string)
    (specifierReplacements : list (string * string)) (calls : list string)
  : option (list (string * string) * list string) :=
  match dependencies with
  | [] => Some (specifierReplacements, calls)
  | specifier :: rest =>
      (* Skip remote specifiers as we don't process them *)
      if isRemoteSpecifier specifier
      then collectReplacements H rest replacer specifierReplacements calls
      else if isJsrOrNpmSpecifier specifier
      then match resolveRegistry H specifier with
           | None => None
           | Some newSpecifier =>
               collectReplacements H rest replacer
                 (Obj.set specifierReplacements specifier newSpecifier) calls
           end
      else
        let newSpecifier := replacer specifier in
        if String.eqb specifier newSpecifier
        then collectReplacements H rest replacer specifierReplacements
               (calls ++ [specifier])
        else collectReplacements H rest replacer
               (Obj.set specifierReplacements specifier newSpecifier)
               (calls ++ [specifier])
  end.

(** [replaceImports]: the new text and the calls made to [replacer]. *)
Definition replaceImports (H : Host) (specifier sourceCode : string)
    (replacer : string -> string) : option (string * list string) :=
  match graphDependencies H specifier sourceCode with
  | None => Some (sourceCode, [])
  | Some dependencies =>
      match collectReplacements H dependencies replacer [] [] with
      | None => None
      | Some (specifierReplacements, calls) =>
          Some (rewriteImports H sourceCode specifierReplacements, calls)
      end
  end.

(** ** The state of a [TsImporter] *)

(** The options fixed by the constructor. *)
Record Settings : Type := mkSettings {
  cacheDir : string;
  importMap : option ImportMap;
  clearDenoCache : bool;
  autoDiscoverImportMap : bool;
  tsTranspileOptions : TranspileOptions
}.

(** The private fields of the instance, and, after them, the part of the
    world the instance changes: the files of the cache directory (by cache
    URL), the module locations read so far, the lines of [console.warn],
    and the URLs whose entry in Deno's own cache was cleared (all three
    newest first).  A pending promise in [#transformationPromises] is
    represented by the URL whose transformation it stands for. *)
Record TsImporter : Type := mkTsImporter {
  settings : Settings;
  cache : gmap string ModuleValue;
  transformedModules : gmap string string;
  processingModules : gset string;
  transformationPromises : gset string;
  disk : gmap string string;
  reads : list string;
  warnings : list string;
  denoCacheCleared : list string
}.

Record TsImporterOptions : Type := mkTsImporterOptions {
  opt_importMap : option ImportMap;
  opt_cacheDir : option string;
  opt_clearDenoCache : option bool;
  opt_autoDiscoverImportMap : option bool;
  opt_tsTranspileMode : option TranspileMode;
  opt_tsCompilerOptions : option CompilerOptions
}.

Definition noOptions : TsImporterOptions :=
  mkTsImporterOptions None None None None None None.

(** [new TsImporter(options)] *)
Definition constructor (H : Host) (options : TsImporterOptions) : TsImporter :=
  {| settings :=
       {| cacheDir :=
            match opt_cacheDir options with
            | Some d =>
                if Js.truthy d
                then if isAbsolute H d then d else join H (cwd H) d
                else join H (getDefaultDenoCacheDir H) "brad_jones_ts_importer"
            | None => join H (getDefaultDenoCacheDir H) "brad_jones_ts_importer"
            end;
          importMap := opt_importMap options;
          clearDenoCache := default false (opt_clearDenoCache options);
          autoDiscoverImportMap :=
            default true (opt_autoDiscoverImportMap options);
          tsTranspileOptions :=
            {| mode := opt_tsTranspileMode options;
               compilerOptions := opt_tsCompilerOptions options |} |};
     cache := ∅;
     transformedModules := ∅;
     processingModules := ∅;
     transformationPromises := ∅;
     disk := ∅;
     reads := [];
     warnings := [];
     denoCacheCleared := [] |}.

Definition set_cache (f : gmap string ModuleValue -> gmap string ModuleValue)
    (st : TsImporter) : TsImporter :=
  mkTsImporter (settings st) (f (cache st)) (transformedModules st)
    (processingModules st) (transformationPromises st) (disk st) (reads st)
    (warnings st) (denoCacheCleared st).

Definition set_transformedModules
    (f : gmap string string -> gmap string string) (st : TsImporter)
  : TsImporter :=
  mkTsImporter (settings st) (cache st) (f (transformedModules st))
    (processingModules st) (transformationPromises st) (disk st) (reads st)
    (warnings st) (denoCacheCleared st).

Definition set_processingModules (f : gset string -> gset string)
    (st : TsImporter) : TsImporter :=
  mkTsImporter (settings st) (cache st) (transformedModules st)
    (f (processingModules st)) (transformationPromises st) (disk st)
    (reads st) (warnings st) (denoCacheCleared st).

Definition set_transformationPromises (f : gset string -> gset string)
    (st : TsImporter) : TsImporter :=
  mkTsImporter (settings st) (cache st) (transformedModules st)
    (processingModules st) (f (transformationPromises st)) (disk st)
    (reads st) (warnings st) (denoCacheCleared st).

Definition set_disk (f : gmap string string -> gmap string string)
    (st : TsImporter) : TsImporter :=
  mkTsImporter (settings st) (cache st) (transformedModules st)
    (processingModules st) (transformationPromises st) (f (disk st))
    (reads st) (warnings st) (denoCacheCleared st).

Definition set_reads (f : list string -> list string) (st : TsImporter)
  : TsImporter :=
  mkTsImporter (settings st) (cache st) (transformedModules st)
    (processingModules st) (transformationPromises st) (disk st)
    (f (reads st)) (warnings st) (denoCacheCleared st).

Definition set_warnings (f : list string -> list string) (st : TsImporter)
  : TsImporter :=
  mkTsImporter (settings st) (cache st) (transformedModules st)
    (processingModules st) (transformationPromises st) (disk st) (reads st)
    (f (warnings st)) (denoCacheCleared st).

Definition set_denoCacheCleared (f : list string -> list string)
    (st : TsImporter) : TsImporter :=
  mkTsImporter (settings st) (cache st) (transformedModules st)
    (processingModules st) (transformationPromises st) (disk st) (reads st)
    (warnings st) (f (denoCacheCleared st)).

(** ** How an awaited call ends *)

(** [Resolved] and [Rejected] are the two ways a promise settles.
    [Awaits u] is the call that was handed the pending promise of the
    transformation of [u] that is still on the call stack, which does not
    settle while the caller waits for it.  [OutOfFuel] belongs to the
    embedding only: the recursion bound was reached. *)
Inductive Settled (A : Type) : Type :=
  | Resolved (a : A)
  | Rejected (message : string)
  | Awaits (url : string)
  | OutOfFuel.

Arguments Resolved {A} a.
Arguments Rejected {A} message.
Arguments Awaits {A} url.
Arguments OutOfFuel {A}.

Definition settled {A : Type} (r : Settled A) : Prop :=
  match r with
  | Resolved _ | Rejected _ => True
  | Awaits _ | OutOfFuel => False
  end.

Definition Async (A : Type) : Type := TsImporter -> Settled A * TsImporter.

(** ** The private methods of [TsImporter] *)

Section Engine.
Context (H : Host).

(** [#readModuleContent] *)
Definition readModuleContent (moduleUrl : string) : Async string :=
  fun st =>
    let st := set_reads (cons moduleUrl) st in
    if String.eqb (URL_protocol H moduleUrl) "file:"
    then match files H !! moduleUrl with
         | Some content => (Resolved content, st)
         | None => (Rejected "No such file or directory", st)
         end
    else match remote H !! moduleUrl with
         | None => (Rejected "error sending request", st)
         | Some response =>
             if ok response
             then (Resolved (text response), st)
             else (Rejected ("Failed to fetch " +:+ moduleUrl +:+ ": "
                             +:+ statusText response), st)
         end.

(** [#clearDenoCacheForUrl]: it removes files of Deno's own cache and
    swallows every error. *)
Definition clearDenoCacheForUrl (url : string) (st : TsImporter)
  : TsImporter :=
  set_denoCacheCleared (cons url) st.

(** [#getCacheUrl] *)
Definition getCacheUrl (st : TsImporter) (urlString code : string)
    (im : option ImportMap) : option string :=
  (* Use empty import map if none provided *)
  let effectiveImportMap := default (mkImportMap [] None) im in
  let cachePath := getCachePath H urlString code effectiveImportMap in
  let fullCachePath := join H (cacheDir (settings st)) cachePath in
  URL_new H ("file://" +:+ fullCachePath) None.

(** [#writeToCache] *)
Definition writeToCache (cacheUrl content : string) : Async unit :=
  fun st =>
    if writable H cacheUrl
    then (Resolved tt, set_disk (insert cacheUrl content) st)
    else (Rejected "Permission denied", st).

(** [#cacheModule] *)
Definition cacheModule (urlString code : string) (im : option ImportMap)
  : Async string :=
  fun st =>
    let processedCode :=
      if hasImportMetaUrl H code then replaceImportMeta H code urlString
      else code in
    let finalCode :=
      if negb (String.eqb processedCode code)
      then createOriginalUrlComment H urlString +:+ processedCode
      else processedCode in
    match getCacheUrl st urlString finalCode im with
    | None => (Rejected "Invalid URL", st)
    | Some cacheUrl =>
        match writeToCache cacheUrl finalCode st with
        | (Resolved _, st1) =>
            (Resolved cacheUrl,
             set_transformedModules (insert urlString cacheUrl) st1)
        | (Rejected e, st1) => (Rejected e, st1)
        | (Awaits u, st1) => (Awaits u, st1)
        | (OutOfFuel, st1) => (OutOfFuel, st1)
        end
    end.

(** [Set.prototype.add] on a set kept in insertion order *)
Definition setAdd (l : list string) (x : string) : list string :=
  if existsb (String.eqb x) l then l else l ++ [x].

(** What the calls of [replacerWithDependencyCollection] leave in
    [originalToTransformedSpecifiers] and in [allLocalSpecifiers]. *)
Definition collectedSpecifiers (replacer : string -> string)
    (calls : list string) : list (string * string) :=
  fold_left (fun m specifier => Obj.set m specifier (replacer specifier))
    calls [].

Definition collectedLocals (calls : list string) : list string :=
  fold_left
    (fun l specifier =>
       if isRelativeOrFileUrl specifier then setAdd l specifier else l)
    calls [].

(** [#processDependency], given the method it calls back *)
Definition processDependency
    (transformModule : string -> option ImportMap -> Async string)
    (specifier baseUrl : string) (im : option ImportMap) : Async string :=
  fun st =>
    match (if isRelativeOrFileUrl specifier
           then URL_new H specifier (Some baseUrl)
           else URL_new H specifier None) with
    | None => (Rejected "Invalid URL", st)
    | Some resolvedUrl => transformModule resolvedUrl im st
    end.

Definition shouldProcess (transformedSpecifier : string) : bool :=
  isRelativeOrFileUrl transformedSpecifier
  || isHttpUrl transformedSpecifier
  || isJsr transformedSpecifier
  || isNpm transformedSpecifier.

(** The specifiers for which [#processDependenciesParallel] pushes a
    promise, in the order of the pushes: the two [for] loops. *)
Definition dependencyEdges
    (originalToTransformedSpecifiers : list (string * string))
    (allLocalSpecifiers : list string) : list string :=
  filter (fun s => Is_true (shouldProcess s))
    (map snd originalToTransformedSpecifiers)
  ++ filter
       (fun s => Is_true (negb (Obj.has originalToTransformedSpecifiers s)))
       allLocalSpecifiers.

(** The resolved URL the [catch] handler keeps for a failed edge. *)
Definition fallbackUrl (specifier moduleUrl : string) : option string :=
  if isRelativeOrFileUrl specifier
  then URL_new H specifier (Some moduleUrl)
  else Some specifier.

Definition warningFor (specifier message : string) : string :=
  "Failed to transform " +:+ specifier +:+ ": " +:+ message.

(** The pushed promises, each with its [then] and [catch] handler, and
    the [Promise.all] that joins them.  [failure] is the rejection of a
    promise whose [catch] handler threw. *)
Fixpoint settleAll
    (transformModule : string -> option ImportMap -> Async string)
    (edges : list string) (moduleUrl : string) (im : option ImportMap)
    (transformedToCachedUrls : gmap string string)
    (failure : option string) : Async (gmap string string) :=
  fun st =>
    match edges with
    | [] =>
        match failure with
        | None => (Resolved transformedToCachedUrls, st)
        | Some e => (Rejected e, st)
        end
    | specifier :: rest =>
        match processDependency transformModule specifier moduleUrl im st
        with
        | (Resolved cachedUrl, st1) =>
            settleAll transformModule rest moduleUrl im
              (<[specifier := cachedUrl]> transformedToCachedUrls)
              failure st1
        | (Rejected message, st1) =>
            (* If transformation fails, keep the resolved URL *)
            match fallbackUrl specifier moduleUrl with
            | Some resolvedUrl =>
                settleAll transformModule rest moduleUrl im
                  (<[specifier := resolvedUrl]> transformedToCachedUrls)
                  failure
                  (set_warnings (cons (warningFor specifier message)) st1)
            | None =>
                settleAll transformModule rest moduleUrl im
                  transformedToCachedUrls
                  (Some (default "Invalid URL" failure)) st1
            end
        | (Awaits u, st1) => (Awaits u, st1)
        | (OutOfFuel, st1) => (OutOfFuel, st1)
        end
    end.

(** [#processDependenciesParallel] *)
Definition processDependenciesParallel
    (transformModule : string -> option ImportMap -> Async string)
    (originalToTransformedSpecifiers : list (string * string))
    (allLocalSpecifiers : list string) (moduleUrl : string)
    (im : option ImportMap) : Async (gmap string string) :=
  settleAll transformModule
    (dependencyEdges originalToTransformedSpecifiers allLocalSpecifiers)
    moduleUrl im ∅ None.

(** The replacer of the second pass:
    [transformedToCachedUrls.get(specifier) || specifier] *)
Definition cachedOr (transformedToCachedUrls : gmap string string)
    (specifier : string) : string :=
  match transformedToCachedUrls !! specifier with
  | Some cached => if Js.truthy cached then cached else specifier
  | None => specifier
  end.

(** The [try] block of the transformation promise. *)
Definition transformation
    (transformModule : string -> option ImportMap -> Async string)
    (moduleUrl : string) (im : option ImportMap) : Async string :=
  fun st =>
    let urlString := moduleUrl in
    (* Read the module content *)
    match readModuleContent moduleUrl st with
    | (Resolved originalCode, st1) =>
      (* Transpile TypeScript to JavaScript. *)
      match transpileTypeScript H originalCode
              (tsTranspileOptions (settings st1)) with
      | None => (Rejected "Unable to strip types", st1)
      | Some transpiledCode =>
        if negb (hasImports H transpiledCode)
           && negb (hasImportMetaUrl H transpiledCode)
        then cacheModule urlString transpiledCode im st1
        else
          let replacer := applyImportMapToSpecifier urlString im in
          (* First pass: replace imports and collect dependencies *)
          match replaceImports H urlString transpiledCode replacer with
          | None => (Rejected "Unable to resolve", st1)
          | Some (replacedCode, calls) =>
            let originalToTransformedSpecifiers :=
              collectedSpecifiers replacer calls in
            let allLocalSpecifiers := collectedLocals calls in
            let transformedCode :=
              replaceImportMeta H replacedCode urlString in
            (* Register cache URL early for circular dependencies *)
            match getCacheUrl st1 urlString transformedCode im with
            | None => (Rejected "Invalid URL", st1)
            | Some cacheUrl =>
              let st2 :=
                set_transformedModules (insert urlString cacheUrl) st1 in
              match processDependenciesParallel transformModule
                      originalToTransformedSpecifiers allLocalSpecifiers
                      moduleUrl im st2 with
              | (Resolved transformedToCachedUrls, st3) =>
                (* Second pass: replace dependency paths with cached
                   paths *)
                match (if Nat.ltb 0 (size transformedToCachedUrls)
                       then option_map fst
                              (replaceImports H urlString transformedCode
                                 (cachedOr transformedToCachedUrls))
                       else Some transformedCode) with
                | None => (Rejected "Unable to resolve", st3)
                | Some finalCode =>
                  let codeWithBanner :=
                    createOriginalUrlComment H urlString +:+ finalCode in
                  match writeToCache cacheUrl codeWithBanner st3 with
                  | (Resolved _, st4) => (Resolved cacheUrl, st4)
                  | (Rejected e, st4) => (Rejected e, st4)
                  | (Awaits u, st4) => (Awaits u, st4)
                  | (OutOfFuel, st4) => (OutOfFuel, st4)
                  end
                end
              | (Rejected e, st3) => (Rejected e, st3)
              | (Awaits u, st3) => (Awaits u, st3)
              | (OutOfFuel, st3) => (OutOfFuel, st3)
              end
            end
          end
      end
    | (Rejected e, st1) => (Rejected e, st1)
    | (Awaits u, st1) => (Awaits u, st1)
    | (OutOfFuel, st1) => (OutOfFuel, st1)
    end.

(** The [finally] block of the transformation promise. *)
Definition clearInFlight (urlString : string) (st : TsImporter)
  : TsImporter :=
  set_transformationPromises (fun s => s ∖ {[urlString]})
    (set_processingModules (fun s => s ∖ {[urlString]}) st).

(** [#transformModule].  [fuel] bounds the depth of the recursion
    through [#processDependency]. *)
Fixpoint transformModule (fuel : nat) (moduleUrl : string)
    (im : option ImportMap) : Async string :=
  fun st =>
    match fuel with
    | 0 => (OutOfFuel, st)
    | S fuel' =>
      let urlString := moduleUrl in
      (* Clear Deno's cache for this module if requested *)
      let st :=
        if clearDenoCache (settings st)
           && String.eqb (URL_protocol H moduleUrl) "file:"
        then clearDenoCacheForUrl moduleUrl st else st in
      (* Check if already transformed *)
      match transformedModules st !! urlString with
      | Some cacheUrl => (Resolved cacheUrl, st)
      | None =>
        (* Handle circular dependencies *)
        if decide (urlString ∈ processingModules st)
        then
          if decide (urlString ∈ transformationPromises st)
          then (Awaits urlString, st)
          else (Resolved urlString, st)
        else
          let st1 := set_processingModules (fun s => {[urlString]} ∪ s) st in
          (* Create and store the transformation promise *)
          let st2 :=
            set_transformationPromises (fun s => {[urlString]} ∪ s) st1 in
          match transformation (transformModule fuel') moduleUrl im st2 with
          | (Resolved cacheUrl, st3) =>
              (Resolved cacheUrl, clearInFlight urlString st3)
          | (Rejected e, st3) => (Rejected e, clearInFlight urlString st3)
          | (Awaits u, st3) => (Awaits u, st3)
          | (OutOfFuel, st3) => (OutOfFuel, st3)
          end
      end
    end.

(** ** The public method [import] *)

(** The object literal that merges the table discovered in [deno.json]
    into the table in effect:
    [{ imports: { ...effectiveImportMap?.imports, ...config?.imports ?? {} },
       scopes: { ...effectiveImportMap?.scopes, ...config?.scopes ?? {} } }] *)
Definition mergeDiscovered (effectiveImportMap config : option ImportMap)
  : ImportMap :=
  {| imports :=
       Obj.spread
         (match effectiveImportMap with Some m => imports m | None => [] end)
         (match config with Some c => imports c | None => [] end);
     scopes :=
       Some (Obj.spread
               (match effectiveImportMap with
                | Some m => default [] (scopes m)
                | None => []
                end)
               (match config with
                | Some c => default [] (scopes c)
                | None => []
                end)) |}.

(** The import map [import] hands to [#transformModule] for the module
    at [url]; [None] when [loadImportMap] throws. *)
Definition discoverImportMap (st : TsImporter) (url : string)
    (importMapArg : option ImportMap) : option (option ImportMap) :=
  let effectiveImportMap :=
    match importMapArg with
    | Some m => Some m
    | None => importMap (settings st)
    end in
  if autoDiscoverImportMap (settings st)
     && negb (bool_decide (is_Some importMapArg))
     && String.eqb (URL_protocol H url) "file:"
  then match findDenoConfigFile H (fromFileUrl H url) with
       | Some configFilePath =>
           if Js.truthy configFilePath
           then match loadImportMap H configFilePath with
                | Some config =>
                    Some (Some (mergeDiscovered effectiveImportMap config))
                | None => None
                end
           else Some effectiveImportMap
       | None => Some effectiveImportMap
       end
  else Some effectiveImportMap.

(** [import] *)
Definition import (fuel : nat) (specifier : string)
    (importMapArg : option ImportMap)
  : TsImporter -> Settled ModuleValue * TsImporter :=
  fun st =>
    (* Memory cache check *)
    match cache st !! specifier with
    | Some module => (Resolved module, st)
    | None =>
      match URL_new H specifier (Some (import_meta_url H)) with
      | None => (Rejected "Invalid URL", st)
      | Some url =>
        (* Clear Deno's cache if requested *)
        let st :=
          if clearDenoCache (settings st)
          then clearDenoCacheForUrl url st else st in
        match discoverImportMap st url importMapArg with
        | None => (Rejected "Unable to load import map", st)
        | Some effectiveImportMap =>
          match transformModule fuel url effectiveImportMap st with
          | (Resolved transformedUrl, st1) =>
              match dynamicImport H (disk st1) transformedUrl with
              | Some module =>
                  (Resolved module,
                   set_cache (insert specifier module) st1)
              | None => (Rejected "Module not found", st1)
              end
          | (Rejected e, st1) => (Rejected e, st1)
          | (Awaits u, st1) => (Awaits u, st1)
          | (OutOfFuel, st1) => (OutOfFuel, st1)
          end
        end
      end
    end.

End Engine.

(** ** Notions the statements use *)

(** The same platform with another working directory. *)
Definition withCwd (H : Host) (dir : string) : Host :=
  {| URL_new := URL_new H;
     URL_protocol := URL_protocol H;
     import_meta_url := import_meta_url H;
     cwd := dir;
     env_transpile_mode := env_transpile_mode H;
     isAbsolute := isAbsolute H;
     join := join H;
     fromFileUrl := fromFileUrl H;
     getDefaultDenoCacheDir := getDefaultDenoCacheDir H;
     getCachePath := getCachePath H;
     files := files H;
     remote := remote H;
     writable := writable H;
     stripTypes := stripTypes H;
     transpileModule := transpileModule H;
     hasImports := hasImports H;
     hasImportMetaUrl := hasImportMetaUrl H;
     replaceImportMeta := replaceImportMeta H;
     createOriginalUrlComment := createOriginalUrlComment H;
     graphDependencies := graphDependencies H;
     resolveRegistry := resolveRegistry H;
     rewriteImports := rewriteImports H;
     findDenoConfigFile := findDenoConfigFile H;
     loadImportMap := loadImportMap H;
     dynamicImport := dynamicImport H |}.

(** The same platform with another answer to whether a cache file can be
    written. *)
Definition withWritable (H : Host) (canWrite : string -> bool) : Host :=
  {| URL_new := URL_new H;
     URL_protocol := URL_protocol H;
     import_meta_url := import_meta_url H;
     cwd := cwd H;
     env_transpile_mode := env_transpile_mode H;
     isAbsolute := isAbsolute H;
     join := join H;
     fromFileUrl := fromFileUrl H;
     getDefaultDenoCacheDir := getDefaultDenoCacheDir H;
     getCachePath := getCachePath H;
     files := files H;
     remote := remote H;
     writable := canWrite;
     stripTypes := stripTypes H;
     transpileModule := transpileModule H;
     hasImports := hasImports H;
     hasImportMetaUrl := hasImportMetaUrl H;
     replaceImportMeta := replaceImportMeta H;
     createOriginalUrlComment := createOriginalUrlComment H;
     graphDependencies := graphDependencies H;
     resolveRegistry := resolveRegistry H;
     rewriteImports := rewriteImports H;
     findDenoConfigFile := findDenoConfigFile H;
     loadImportMap := loadImportMap H;
     dynamicImport := dynamicImport H |}.


(** A specifier is an absolute URL when parsing it does not look at the
    base. *)
Definition absoluteURL (H : Host) (specifier : string) : Prop :=
  forall base, URL_new H specifier (Some base) = URL_new H specifier None.

(** The module locations the platform can serve at all. *)
Definition locations (H : Host) : gset string :=
  dom (files H) ∪ dom (remote H).

(** The locations that have no transformation record yet, and their
    number: what a run of [#transformModule] can still have to read. *)
Definition pendingLocations (H : Host) (st : TsImporter) : gset string :=
  locations H ∖ dom (transformedModules st).

Definition pending (H : Host) (st : TsImporter) : nat :=
  size (pendingLocations H st).

(** The state [#transformModule] looks its records up in: the caller's,
    after the clearing of Deno's own cache entry if that was asked for. *)
Definition afterCacheClearing (H : Host) (moduleUrl : string)
    (st : TsImporter) : TsImporter :=
  if clearDenoCache (settings st)
     && String.eqb (URL_protocol H moduleUrl) "file:"
  then clearDenoCacheForUrl moduleUrl st else st.

(** The state in which the [try] block of a transformation starts: the
    module is in the processing set and its promise is stored. *)
Definition markInFlight (H : Host) (moduleUrl : string) (st : TsImporter)
  : TsImporter :=
  set_transformationPromises (fun s => {[moduleUrl]} ∪ s)
    (set_processingModules (fun s => {[moduleUrl]} ∪ s)
       (afterCacheClearing H moduleUrl st)).

(** Every transformation in flight has registered its cache location:
    the state between two top-level requests, and the state in which the
    engine calls itself for a dependency. *)
Definition registeredInFlight (st : TsImporter) : Prop :=
  processingModules st ⊆ dom (transformedModules st).

(** [st'] is [st] after some steps of the engine: the settings and the
    memory cache are the same, records, reads and warnings were only
    added, and a record was added only for a location that was read. *)
Record grows (H : Host) (st st' : TsImporter) : Prop := mkGrows {
  grows_settings : settings st' = settings st;
  grows_cache : cache st' = cache st;
  grows_transformed : transformedModules st ⊆ transformedModules st';
  grows_located : forall u,
      u ∈ dom (transformedModules st') ->
      u ∈ dom (transformedModules st) \/ u ∈ locations H;
  grows_reads : exists l, reads st' = l ++ reads st;
  grows_warnings : exists l, warnings st' = l ++ warnings st
}.

(** The in-flight registry is as it was. *)
Definition keeps (st st' : TsImporter) : Prop :=
  processingModules st' = processingModules st
  /\ transformationPromises st' ⊆ transformationPromises st.

(** The URL [#processDependency] transforms for a specifier. *)
Definition dependencyUrl (H : Host) (specifier baseUrl : string)
  : option string :=
  if isRelativeOrFileUrl specifier
  then URL_new H specifier (Some baseUrl)
  else URL_new H specifier None.

(** How the edge [specifier] of the module [moduleUrl] stands in the table
    [m] of the second pass: either it is mapped to the cache location
    recorded for the dependency, or it is mapped to the resolved URL the
    [catch] handler keeps and a warning about it was logged. *)
Definition edgeCached (H : Host) (moduleUrl : string)
    (m : gmap string string) (st : TsImporter) (specifier : string) : Prop :=
  exists url cacheUrl,
    dependencyUrl H specifier moduleUrl = Some url
    /\ m !! specifier = Some cacheUrl
    /\ transformedModules st !! url = Some cacheUrl.

Definition edgeFellBack (H : Host) (moduleUrl : string)
    (m : gmap string string) (st : TsImporter) (specifier : string) : Prop :=
  exists resolvedUrl message,
    fallbackUrl H specifier moduleUrl = Some resolvedUrl
    /\ m !! specifier = Some resolvedUrl
    /\ warningFor specifier message ∈ warnings st.

(** What a run of a method leaves unchanged. *)
Definition framed (H : Host) {A : Type} (run : Async A) : Prop :=
  forall st r st',
    run st = (r, st') -> grows H st st' /\ (settled r -> keeps st st').

(** The bound under which a call of the engine settles. *)
Definition settlesWithin (H : Host) (fuel : nat)
    (tm : string -> option ImportMap -> Async string) : Prop :=
  forall url im st,
    registeredInFlight st -> pending H st < fuel ->
    settled (tm url im st).1.

(** The dependency at [url] can be transformed: in every state that a run
    starting in [st] reaches, its transformation resolves. *)
Definition transformable (H : Host) (fuel : nat) (im : option ImportMap)
    (st : TsImporter) (url : string) : Prop :=
  forall st1,
    grows H st st1 -> registeredInFlight st1 -> pending H st1 < fuel ->
    exists cacheUrl st1',
      transformModule H fuel url im st1 = (Resolved cacheUrl, st1').



(** ** The text edits of [replace_imports.ts] *)

Module TextEdit.

Definition newline : ascii := ascii_of_nat 10.

Definition doubleQuote : ascii := ascii_of_nat 34.

(** [s.split(sep)] for a separator of one character *)
Fixpoint split (sep : ascii) (s : string) : list string :=
  match s with
  | EmptyString => [EmptyString]
  | String c r =>
      if Ascii.eqb c sep then EmptyString :: split sep r
      else match split sep r with
           | [] => [String c EmptyString]
           | first :: others => String c first :: others
           end
  end.

(** [l.join(sep)] *)
Definition join (sep : ascii) (l : list string) : string :=
  String.concat (String sep EmptyString) l.

(** [s.substring(0, n)] *)
Fixpoint take (s : string) (n : nat) : string :=
  match n, s with
  | 0, _ => EmptyString
  | S _, EmptyString => EmptyString
  | S k, String c r => String c (take r k)
  end.

(** [Array.prototype.sort(compare)]: the sort is stable, so that for a
    comparator that orders its arguments consistently the result is the
    one of the insertion sort below, where an element stays in front of
    the later elements it does not compare greater than. *)
Fixpoint insertSorted {A : Type} (compare : A -> A -> Z) (x : A)
    (l : list A) : list A :=
  match l with
  | [] => [x]
  | y :: r =>
      if (compare x y <=? 0)%Z then x :: y :: r
      else y :: insertSorted compare x r
  end.

Definition sort {A : Type} (compare : A -> A -> Z) (l : list A) : list A :=
  fold_right (insertSorted compare) [] l.

(** A span of the dependency graph. *)
Record Position : Type := mkPosition {
  line : nat;
  character : nat
}.

Record Span : Type := mkSpan {
  span_start : Position;
  span_end : Position
}.

Record Replacement : Type := mkReplacement {
  startLine : nat;
  startChar : nat;
  endLine : nat;
  endChar : nat;
  specifier : string;
  newSpecifier : string
}.

(** [createReplacement] *)
Definition createReplacement (span : Span) (specifier newSpecifier : string)
  : Replacement :=
  {| startLine := line (span_start span);
     startChar := character (span_start span);
     endLine := line (span_end span);
     endChar := character (span_end span);
     specifier := specifier;
     newSpecifier := newSpecifier |}.

(** The comparator of [applyReplacements]:
    [a.startLine !== b.startLine ? b.startLine - a.startLine
                                 : b.startChar - a.startChar] *)
Definition compareReplacements (a b : Replacement) : Z :=
  if negb (Nat.eqb (startLine a) (startLine b))
  then (Z.of_nat (startLine b) - Z.of_nat (startLine a))%Z
  else (Z.of_nat (startChar b) - Z.of_nat (startChar a))%Z.

(** The text that takes the place of a span: the new specifier in double
    quotes. *)
Definition quoted (s : string) : string :=
  String doubleQuote (s +:+ String doubleQuote EmptyString).

(** The [for] loop of [applyReplacements].  [lines[i]] is [undefined]
    beyond the last line, and [undefined.substring] throws: [None]. *)
Fixpoint editLines (lines : list string) (replacements : list Replacement)
  : option (list string) :=
  match replacements with
  | [] => Some lines
  | replacement :: rest =>
      match lines !! startLine replacement with
      | None => None
      | Some line =>
          editLines
            (<[startLine replacement :=
                 take line (startChar replacement)
                 +:+ quoted (newSpecifier replacement)
                 +:+ Js.slice line (endChar replacement)]> lines)
            rest
      end
  end.

(** [applyReplacements] *)
Definition applyReplacements (sourceCode : string)
    (replacements : list Replacement) : option string :=
  let lines := split newline sourceCode in
  (* Sort replacements in reverse order to avoid offset issues *)
  let replacements := sort compareReplacements replacements in
  option_map (join newline) (editLines lines replacements).

(** Where a replacement starts. *)
Definition position (r : Replacement) : nat * nat :=
  (startLine r, startChar r).

End TextEdit.

(** ** A small platform to run the engine on

    Modules are written in a toy syntax: statements separated by [;], an
    import being [import <specifier>] and the self-location token being
    the statement [import.meta.url].  URLs are resolved the simple way: a
    string with a scheme is absolute, [./x] is relative to the directory
    of the base.  The cache path spells out the table, the text and the
    URL it is derived from, so that it tells any two of them apart. *)
Module Fixture.

Fixpoint splitOn (sep : ascii) (s : string) (current : string)
  : list string :=
  match s with
  | EmptyString => [current]
  | String c r =>
      if Ascii.eqb c sep then current :: splitOn sep r EmptyString
      else splitOn sep r (current +:+ String c EmptyString)
  end.

Definition statements (code : string) : list string :=
  splitOn ";" code EmptyString.

Definition unstatements (l : list string) : string :=
  String.concat ";" l.

Definition importOf (statement : string) : option string :=
  if Js.startsWith statement "import " then Some (Js.slice statement 7)
  else None.

Definition dependenciesOf (code : string) : list string :=
  omap importOf (statements code).

Definition rewrite (code : string) (replacements : list (string * string))
  : string :=
  unstatements
    (map (fun statement =>
            match importOf statement with
            | Some specifier =>
                "import " +:+ default specifier
                                (Obj.get replacements specifier)
            | None => statement
            end)
       (statements code)).

Definition usesMeta (code : string) : bool :=
  existsb (String.eqb "import.meta.url") (statements code).

Definition replaceMeta (code url : string) : string :=
  unstatements
    (map (fun statement =>
            if String.eqb statement "import.meta.url"
            then "'" +:+ url +:+ "'" else statement)
       (statements code)).

(** the part of [s] up to its last [/], included *)
Fixpoint directory (s : string) : string :=
  match s with
  | EmptyString => EmptyString
  | String c r =>
      if existsb (Ascii.eqb "/") (list_ascii_of_string r)
      then String c (directory r)
      else if Ascii.eqb c "/" then "/" else EmptyString
  end.

Definition hasScheme (s : string) : bool :=
  Js.startsWith s "file://" || Js.startsWith s "http://"
  || Js.startsWith s "https://" || Js.startsWith s "jsr:"
  || Js.startsWith s "npm:".

Definition newURL (input : string) (base : option string) : option string :=
  if hasScheme input then Some input
  else match base with
       | Some b =>
           if Js.startsWith input "./"
           then Some (directory b +:+ Js.slice input 2)
           else None
       | None => None
       end.

Fixpoint protocolOf (s : string) : string :=
  match s with
  | EmptyString => EmptyString
  | String c r =>
      if Ascii.eqb c ":" then ":" else String c (protocolOf r)
  end.

Definition showImports (i : Imports) : string :=
  String.concat "," (map (fun kv => fst kv +:+ "=" +:+ snd kv) i).

Definition showImportMap (m : ImportMap) : string :=
  showImports (imports m) +:+ "|"
  +:+ String.concat ","
        (map (fun sc => fst sc +:+ "{" +:+ showImports (snd sc) +:+ "}")
           (default [] (scopes m))).

Definition cachePath (urlString code : string) (m : ImportMap) : string :=
  showImportMap m +:+ "!" +:+ code +:+ "!" +:+ urlString.

(** The modules of the world: [a.ts] and [b.ts] import each other,
    [main.ts] imports a leaf, a missing file and a mapped specifier,
    [/pkg/mod.ts] sits next to a [deno.json]. *)
Definition sourceFiles : gmap string string :=
  list_to_map
    [ ("file:///app/a.ts", "import ./b.ts;export a");
      ("file:///app/b.ts", "import ./a.ts;export b");
      ("file:///app/leaf.ts", "export leaf");
      ("file:///app/other.ts", "export other");
      ("file:///app/main.ts",
       "import ./leaf.ts;import ./missing.ts;import @app/other.ts;export main");
      ("file:///pkg/mod.ts", "import @x;export m");
      ("file:///pkg/explicit.ts", "export explicit");
      ("file:///pkg/discovered.ts", "export discovered");
      ("file:///lib/rel.ts", "export rel") ].

Definition discovered : ImportMap :=
  mkImportMap [("@x", "file:///pkg/discovered.ts")] None.

Definition host : Host :=
  {| URL_new := newURL;
     URL_protocol := protocolOf;
     import_meta_url := "file:///lib/ts_importer.ts";
     cwd := "/home/user/project";
     env_transpile_mode := None;
     isAbsolute := fun p => Js.startsWith p "/";
     join := fun a b => a +:+ "/" +:+ b;
     fromFileUrl := fun u => Js.slice u 7;
     getDefaultDenoCacheDir := "/deno";
     getCachePath := cachePath;
     files := sourceFiles;
     remote := ∅;
     writable := fun _ => true;
     stripTypes := fun code => Some code;
     transpileModule := fun _ code => Some code;
     hasImports := fun code =>
       existsb (fun s => bool_decide (is_Some (importOf s)))
         (statements code);
     hasImportMetaUrl := usesMeta;
     replaceImportMeta := replaceMeta;
     createOriginalUrlComment := fun u => "// " +:+ u +:+ ";";
     graphDependencies := fun _ code => Some (dependenciesOf code);
     resolveRegistry := fun s => Some s;
     rewriteImports := rewrite;
     findDenoConfigFile := fun p =>
       if Js.startsWith p "/pkg/" then Some "/pkg/deno.json" else None;
     loadImportMap := fun p =>
       if String.eqb p "/pkg/deno.json" then Some (Some discovered)
       else None;
     dynamicImport := fun d u => d !! u |}.

Definition fresh : TsImporter :=
  constructor host
    (mkTsImporterOptions None (Some "/cache") None (Some false) None None).

Definition tableApp : ImportMap :=
  mkImportMap [("@app", "file:///app")] None.

Definition tableExplicit : ImportMap :=
  mkImportMap [("@x", "file:///pkg/explicit.ts")] None.

(** the instance after the transformation of the cycle, and after the
    attempt on a file that does not exist *)
Definition afterCycle : TsImporter :=
  (transformModule host 3 "file:///app/a.ts" None fresh).2.

Definition afterMissing : TsImporter :=
  (transformModule host 3 "file:///app/missing.ts" None fresh).2.

(** the instance after [mod.ts] was transformed under [tableExplicit] *)
Definition afterExplicit : TsImporter :=
  (transformModule host 3 "file:///pkg/mod.ts" (Some tableExplicit) fresh).2.

(** an instance configured with [tableExplicit], discovery left on *)
Definition configured : TsImporter :=
  constructor host
    (mkTsImporterOptions (Some tableExplicit) (Some "/cache") None None
       None None).

(** the configured instance after it imported [mod.ts], whose
    [deno.json] was discovered *)
Definition afterImport : TsImporter :=
  (import host 5 "file:///pkg/mod.ts" None configured).2.

(** [main.ts]: its text, the text after the first pass under [tableApp],
    the specifiers the replacer was called with, its cache location, and
    the instance after its transformation *)
Definition mainUrl : string := "file:///app/main.ts".

Definition mainCode : string :=
  "import ./leaf.ts;import ./missing.ts;import @app/other.ts;export main".

Definition mainReplaced : string :=
  "import ./leaf.ts;import ./missing.ts;import file:///app/other.ts;export main".

Definition mainCalls : list string :=
  ["./leaf.ts"; "./missing.ts"; "@app/other.ts"].

Definition mainCache : string :=
  "file:///cache/@app=file:///app|!import ./leaf.ts;import ./missing.ts;import file:///app/other.ts;export main!file:///app/main.ts".

Definition afterMain : TsImporter :=
  (transformModule host 10 mainUrl (Some tableApp) fresh).2.

(** the instance after the import of the relative [./rel.ts] *)
Definition afterRelative : TsImporter :=
  (import host 3 "./rel.ts" None fresh).2.

(** the platform on which the cache file of [main.ts] cannot be written *)
Definition hostDenyingMain : Host :=
  withWritable host (fun u => negb (String.eqb u mainCache)).

(** the instance after the cycle and then [main.ts] were transformed *)
Definition afterCycleAndMain : TsImporter :=
  (transformModule host 10 mainUrl (Some tableApp) afterCycle).2.

(** [main.ts] after the second pass, without the banner *)
Definition mainFinal : string :=
  "import file:///cache/@app=file:///app|!export leaf!file:///app/leaf.ts;import file:///app/missing.ts;import file:///cache/@app=file:///app|!export other!file:///app/other.ts;export main".








End Fixture.


(** * Properties *)

(** ** Tables *)

Section TableFacts.
Context {V : Type}.
Implicit Types (o a b : list (string * V)) (k : string) (v : V).

Lemma get_set_eq o k v : Obj.get (Obj.set o k v) k = Some v.
Proof.
  induction o as [|[k' v'] o IH]; simpl.
  - by rewrite String.eqb_refl.
  - destruct (String.eqb k' k) eqn:E; simpl; rewrite E; [done | apply IH].
Qed.

Lemma get_set_ne o k k' v :
  k <> k' -> Obj.get (Obj.set o k v) k' = Obj.get o k'.
Proof.
  intros Hne. induction o as [|[k0 v0] o IH]; simpl.
  - destruct (String.eqb k k') eqn:E; [|done].
    apply String.eqb_eq in E. contradiction.
  - destruct (String.eqb k0 k) eqn:E; simpl.
    + apply String.eqb_eq in E. subst k0.
      destruct (String.eqb k k') eqn:E'; [|done].
      apply String.eqb_eq in E'. contradiction.
    + by rewrite IH.
Qed.

Lemma get_none_notin o k :
  k ∉ map fst o -> Obj.get o k = None.
Proof.
  induction o as [|[k0 v0] o IH]; simpl; [done|].
  intros Hn. apply not_elem_of_cons in Hn as [Hne Hn].
  destruct (String.eqb k0 k) eqn:E.
  - apply String.eqb_eq in E. congruence.
  - by apply IH.
Qed.

(** The spread: a property of [b] overrides the one of [a]. *)
Lemma get_assign a b k :
  NoDup (map fst b) ->
  Obj.get (Obj.assign a b) k
  = match Obj.get b k with Some v => Some v | None => Obj.get a k end.
Proof.
  unfold Obj.assign. revert a.
  induction b as [|[k0 v0] b IH]; intros a Hnd; simpl; [done|].
  apply NoDup_cons in Hnd as [Hnotin Hnd].
  rewrite IH by done.
  destruct (String.eqb k0 k) eqn:E.
  - apply String.eqb_eq in E. subst k0.
    rewrite get_none_notin by done. apply get_set_eq.
  - destruct (Obj.get b k); [done|].
    apply get_set_ne. intros ->. by rewrite String.eqb_refl in E.
Qed.

Lemma get_spread a b k :
  NoDup (map fst b) ->
  Obj.get (Obj.spread a b) k
  = match Obj.get b k with
    | Some v => Some v
    | None => Obj.get (Obj.assign [] a) k
    end.
Proof. intros. unfold Obj.spread. by apply get_assign. Qed.
End TableFacts.

(** ** The resolver *)

(** A match in the direct table ends the search: the scopes are not
    looked at, whatever they define. *)
Lemma direct_match_hides_scopes
    (urlString : string) (importEntries : list (string * string))
    (scopeEntries : list (string * list (string * string)))
    (specifier r : string) :
  matchEntries importEntries specifier = Some r ->
  createOptimizedReplacer urlString importEntries scopeEntries specifier = r.
Proof. intros Hm. unfold createOptimizedReplacer. by rewrite Hm. Qed.

(** C2, at the input of the claim and at the example of the README: the
    direct table and a scope that applies to the requesting module both
    define the key; the resolver answers with the direct target, not with
    the scoped one.  With the direct mapping [{"@x": "A"}] and the scope
    [{"@x": "B"}] it returns ["A"]; with the README's import map a module
    under [https://esm.sh/] that asks for ["react"] gets [react@18], the
    scoped [react@17] cannot be reached. *)
Theorem scoped_mapping_does_not_win :
  Js.startsWith "file:///app/m.ts" "file:///app/" = true
  /\ Obj.get [("@x", "A")] "@x" = Some "A"
  /\ Obj.get [("@x", "B")] "@x" = Some "B"
  /\ applyImportMapToSpecifier "file:///app/m.ts"
       (Some (mkImportMap [("@x", "A")]
                (Some [("file:///app/", [("@x", "B")])]))) "@x"
     = "A"
  /\ applyImportMapToSpecifier "file:///app/m.ts"
       (Some (mkImportMap [("@x", "A")]
                (Some [("file:///app/", [("@x", "B")])]))) "@x"
     <> "B"
  /\ Js.startsWith "https://esm.sh/v135/react-dom@17/index.js"
       "https://esm.sh/" = true
  /\ applyImportMapToSpecifier "https://esm.sh/v135/react-dom@17/index.js"
       (Some (mkImportMap [("react", "https://esm.sh/react@18")]
                (Some [("https://esm.sh/",
                        [("react", "https://esm.sh/react@17")])])))
       "react"
     = "https://esm.sh/react@18".
Proof. repeat split; try reflexivity. discriminate. Qed.

(** C3, at the input of the claim: under the mapping [{"@x/": "A/"}] the
    specifier ["@x/sub"] is not matched, because the test is
    [startsWith(key + "/")], here [startsWith("@x//")]; the resolver
    returns it unchanged instead of ["A/sub"]. *)
Theorem trailing_slash_key_is_not_a_prefix :
  keyMatches "@x/sub" "@x/" = false
  /\ applyImportMapToSpecifier "file:///app/m.ts"
       (Some (mkImportMap [("@x/", "A/")] None)) "@x/sub"
     = "@x/sub"
  /\ applyImportMapToSpecifier "file:///app/m.ts"
       (Some (mkImportMap [("@x/", "A/")] None)) "@x/sub"
     <> "A/sub".
Proof. repeat split; try reflexivity. discriminate. Qed.

(** A key without the trailing slash is matched as a prefix. *)
Example slashless_key_is_a_prefix :
  applyImportMapToSpecifier "file:///app/m.ts"
    (Some (mkImportMap [("@x", "A")] None)) "@x/sub" = "A/sub".
Proof. reflexivity. Qed.

(** ** Merging the discovered import map *)

Lemma get_assign_nil (a : Imports) (key : string) :
  NoDup (map fst a) -> Obj.get (Obj.assign [] a) key = Obj.get a key.
Proof.
  intros Hnd. rewrite get_assign by done. simpl. by destruct (Obj.get a key).
Qed.

(** C8, as the code has it: when [import] discovers a [deno.json] next to
    the module (no import map was passed to the call), a key the
    discovered table defines has the discovered target in the table the
    engine receives, whether or not the import map of the instance defines
    it too; a key the discovered table does not define keeps the target of
    the instance's import map. *)
Theorem discovered_mapping_wins
    (H : Host) (st : TsImporter) (url configFilePath : string)
    (instanceMap config : ImportMap) :
  autoDiscoverImportMap (settings st) = true ->
  importMap (settings st) = Some instanceMap ->
  URL_protocol H url = "file:" ->
  findDenoConfigFile H (fromFileUrl H url) = Some configFilePath ->
  Js.truthy configFilePath = true ->
  loadImportMap H configFilePath = Some (Some config) ->
  NoDup (map fst (imports instanceMap)) ->
  NoDup (map fst (imports config)) ->
  exists merged,
    discoverImportMap H st url None = Some (Some merged)
    /\ forall key,
        Obj.get (imports merged) key
        = match Obj.get (imports config) key with
          | Some target => Some target
          | None => Obj.get (imports instanceMap) key
          end.
Proof.
  intros Hauto Hinst Hproto Hfind Htruthy Hload Hnd1 Hnd2.
  exists (mergeDiscovered (Some instanceMap) (Some config)). split.
  - unfold discoverImportMap.
    rewrite Hauto, Hinst, Hproto, Hfind, Htruthy, Hload. reflexivity.
  - intros key. unfold mergeDiscovered. simpl.
    rewrite get_spread by done. by rewrite get_assign_nil.
Qed.

Lemma discovered_mapping_wins_witness :
  exists merged,
    discoverImportMap Fixture.host Fixture.configured "file:///pkg/mod.ts"
      None = Some (Some merged)
    /\ forall key,
        Obj.get (imports merged) key
        = match Obj.get (imports Fixture.discovered) key with
          | Some target => Some target
          | None => Obj.get (imports Fixture.tableExplicit) key
          end.
Proof.
  apply (discovered_mapping_wins Fixture.host Fixture.configured
           "file:///pkg/mod.ts" "/pkg/deno.json").
  - reflexivity.
  - reflexivity.
  - reflexivity.
  - reflexivity.
  - reflexivity.
  - reflexivity.
  - simpl. apply NoDup_singleton.
  - simpl. apply NoDup_singleton.
Defined.

(** The instance maps ["@x"] to [explicit.ts], the [deno.json] next to the
    module maps it to [discovered.ts]: the table the engine receives has
    the discovered target, and the loaded module imports the cached
    [discovered.ts]. *)
Lemma explicit_mapping_does_not_win :
  Obj.get (imports Fixture.tableExplicit) "@x"
  = Some "file:///pkg/explicit.ts"
  /\ Obj.get (imports Fixture.discovered) "@x"
     = Some "file:///pkg/discovered.ts"
  /\ (forall merged,
        discoverImportMap Fixture.host Fixture.configured
          "file:///pkg/mod.ts" None = Some (Some merged) ->
        Obj.get (imports merged) "@x" = Some "file:///pkg/discovered.ts"
        /\ Obj.get (imports merged) "@x"
           <> Obj.get (imports Fixture.tableExplicit) "@x")
  /\ (import Fixture.host 5 "file:///pkg/mod.ts" None Fixture.configured).1
     = Resolved
         "// file:///pkg/mod.ts;import file:///cache/@x=file:///pkg/discovered.ts|!export discovered!file:///pkg/discovered.ts;export m".
Proof.
  split; [reflexivity|]. split; [reflexivity|]. split.
  - intros merged Hm. vm_compute in Hm. injection Hm as <-.
    split; [reflexivity | discriminate].
  - vm_compute. reflexivity.
Qed.

(** An import map passed to the call is used alone: no discovery. *)
Lemma explicit_argument_suppresses_discovery
    (H : Host) (st : TsImporter) (url : string) (m : ImportMap) :
  discoverImportMap H st url (Some m) = Some (Some m).
Proof.
  unfold discoverImportMap.
  rewrite bool_decide_eq_true_2 by eauto.
  by rewrite andb_false_r.
Qed.

(** ** The engine: what a run leaves unchanged *)

Section Frame.
Context (H : Host).

Lemma grows_refl st : grows H st st.
Proof.
  split; try done.
  - intros u Hu. by left.
  - by exists [].
  - by exists [].
Qed.

Lemma grows_trans st1 st2 st3 :
  grows H st1 st2 -> grows H st2 st3 -> grows H st1 st3.
Proof.
  intros [S1 C1 T1 L1 [r1 R1] [w1 W1]] [S2 C2 T2 L2 [r2 R2] [w2 W2]].
  split.
  - congruence.
  - congruence.
  - by etrans.
  - intros u Hu. destruct (L2 u Hu) as [Hu2 | ?]; [|by right]. by apply L1.
  - exists (r2 ++ r1). rewrite R2, R1. by rewrite app_assoc.
  - exists (w2 ++ w1). rewrite W2, W1. by rewrite app_assoc.
Qed.

Lemma keeps_refl st : keeps st st.
Proof. by split. Qed.

Lemma keeps_same st st' :
  processingModules st' = processingModules st ->
  transformationPromises st' = transformationPromises st ->
  keeps st st'.
Proof. intros Hp Hq. split; [done | by rewrite Hq]. Qed.

Lemma keeps_trans st1 st2 st3 : keeps st1 st2 -> keeps st2 st3 -> keeps st1 st3.
Proof.
  intros [P1 Q1] [P2 Q2]. split; [by rewrite P2 | by etrans].
Qed.

Lemma grows_set_reads st u : grows H st (set_reads (cons u) st).
Proof.
  split; simpl; try done.
  - intros ??. by left.
  - by exists [u].
  - by exists [].
Qed.

Lemma grows_set_warnings st w : grows H st (set_warnings (cons w) st).
Proof.
  split; simpl; try done.
  - intros ??. by left.
  - by exists [].
  - by exists [w].
Qed.

Lemma grows_set_disk st f : grows H st (set_disk f st).
Proof.
  split; simpl; try done.
  - intros ??. by left.
  - by exists [].
  - by exists [].
Qed.

Lemma grows_clearDenoCache st u : grows H st (clearDenoCacheForUrl u st).
Proof.
  split; simpl; try done.
  - intros ??. by left.
  - by exists [].
  - by exists [].
Qed.

Lemma grows_set_inFlight st f g :
  grows H st (set_transformationPromises g (set_processingModules f st)).
Proof.
  split; simpl; try done.
  - intros ??. by left.
  - by exists [].
  - by exists [].
Qed.

Lemma grows_register st u c :
  transformedModules st !! u = None ->
  u ∈ locations H ->
  grows H st (set_transformedModules (insert u c) st).
Proof.
  intros Hnone Hloc. split; simpl; try done.
  - by apply insert_subseteq.
  - intros u' Hu'. rewrite dom_insert_L in Hu'.
    apply elem_of_union in Hu' as [Hu' | Hu']; [|by left].
    apply elem_of_singleton in Hu'. subst. by right.
  - by exists [].
  - by exists [].
Qed.

(** A location that was read with success is one of the platform's. *)
Lemma readModuleContent_inv moduleUrl st r st1 :
  readModuleContent H moduleUrl st = (r, st1) ->
  st1 = set_reads (cons moduleUrl) st
  /\ (forall content, r = Resolved content -> moduleUrl ∈ locations H)
  /\ settled r.
Proof.
  unfold readModuleContent, locations. intros Hrun.
  repeat case_match; simplify_eq; (split; [done|]); (split; [|done]);
    intros content Hc; simplify_eq.
  - apply elem_of_union_l, elem_of_dom. eauto.
  - apply elem_of_union_r, elem_of_dom. eauto.
Qed.

Lemma writeToCache_inv cacheUrl content st r st1 :
  writeToCache H cacheUrl content st = (r, st1) ->
  settled r
  /\ (st1 = st \/ st1 = set_disk (insert cacheUrl content) st).
Proof.
  unfold writeToCache. intros Hrun.
  case_match; simplify_eq; split; auto; done.
Qed.

Lemma cacheModule_framed urlString code im st r st' :
  transformedModules st !! urlString = None ->
  urlString ∈ locations H ->
  cacheModule H urlString code im st = (r, st') ->
  grows H st st' /\ keeps st st' /\ settled r.
Proof.
  intros Hnone Hloc. unfold cacheModule. intros Hrun.
  destruct (getCacheUrl H st urlString _ im) as [cacheUrl|];
    [|simplify_eq; split; [apply grows_refl | by split]].
  destruct (writeToCache H cacheUrl _ st) as [w st1] eqn:Hw.
  apply writeToCache_inv in Hw as [Hs Hst1].
  destruct w; try done; simplify_eq.
  - split; [|by destruct Hst1; subst].
    destruct Hst1; subst.
    + by apply grows_register.
    + eapply grows_trans; [apply grows_set_disk|].
      by apply grows_register.
  - split; [|by destruct Hst1; subst].
    destruct Hst1; subst; [apply grows_refl | apply grows_set_disk].
Qed.

Lemma processDependency_framed tm specifier baseUrl im :
  (forall url, framed H (tm url im)) ->
  framed H (processDependency H tm specifier baseUrl im).
Proof.
  intros Htm st r st'. unfold processDependency.
  case_match; [apply Htm|].
  intros; simplify_eq. split; [apply grows_refl | intros; apply keeps_refl].
Qed.

Lemma settleAll_framed tm edges moduleUrl im acc failure :
  (forall url, framed H (tm url im)) ->
  framed H (settleAll H tm edges moduleUrl im acc failure).
Proof.
  intros Htm. revert acc failure.
  induction edges as [|specifier rest IH]; intros acc failure st r st' Hrun.
  - simpl in Hrun. destruct failure; simplify_eq;
      (split; [apply grows_refl | intros; apply keeps_refl]).
  - simpl in Hrun.
    destruct (processDependency H tm specifier moduleUrl im st)
      as [d st1] eqn:Hd.
    apply processDependency_framed in Hd as [Hg Hk]; [|done].
    destruct d as [cachedUrl | message | u |].
    + apply IH in Hrun as [Hg' Hk']. split.
      * by eapply grows_trans.
      * intros Hs. eapply keeps_trans; [by apply Hk | by apply Hk'].
    + destruct (fallbackUrl H specifier moduleUrl);
        apply IH in Hrun as [Hg' Hk']; split.
      * eapply grows_trans; [apply Hg|].
        eapply grows_trans; [apply grows_set_warnings | apply Hg'].
      * intros Hs. eapply keeps_trans; [by apply Hk |].
        specialize (Hk' Hs). by destruct Hk'.
      * by eapply grows_trans.
      * intros Hs. eapply keeps_trans; [by apply Hk | by apply Hk'].
    + simplify_eq. split; [done | intros []].
    + simplify_eq. split; [done | intros []].
Qed.

(** The [try] block first reads the module, then only adds to what the
    state holds. *)
Lemma transformation_after_read tm moduleUrl im st r st' :
  (forall url, framed H (tm url im)) ->
  transformedModules st !! moduleUrl = None ->
  transformation H tm moduleUrl im st = (r, st') ->
  grows H (set_reads (cons moduleUrl) st) st'
  /\ (settled r -> keeps st st').
Proof.
  intros Htm Hnone. unfold transformation. intros Hrun.
  destruct (readModuleContent H moduleUrl st) as [rd st1] eqn:Hrd.
  apply readModuleContent_inv in Hrd as (-> & Hloc & Hsrd).
  set (st1 := set_reads (cons moduleUrl) st) in *.
  assert (keeps st st1) as Hk1 by by apply keeps_same.
  destruct rd as [originalCode | e | u |]; try done;
    [|simplify_eq; split; [apply grows_refl | done]].
  specialize (Hloc _ eq_refl).
  destruct (transpileTypeScript H originalCode _) as [transpiledCode|];
    [|simplify_eq; split; [apply grows_refl | done]].
  destruct (negb (hasImports H transpiledCode)
            && negb (hasImportMetaUrl H transpiledCode)).
  { apply cacheModule_framed in Hrun as (Hg & Hk & _); [|done..].
    split; [done | intros _; by eapply keeps_trans]. }
  destruct (replaceImports H moduleUrl transpiledCode _)
    as [[replacedCode calls]|];
    [|simplify_eq; split; [apply grows_refl | done]].
  destruct (getCacheUrl H _ moduleUrl _ im) as [cacheUrl|];
    [|simplify_eq; split; [apply grows_refl | done]].
  destruct (processDependenciesParallel H tm _ _ moduleUrl im _)
    as [pd st3] eqn:Hpd.
  apply settleAll_framed in Hpd as [Hg3 Hk3]; [|done].
  assert (grows H st1 st3) as Hg.
  { eapply grows_trans; [|apply Hg3]. by apply grows_register. }
  destruct pd as [transformedToCachedUrls | e | u |]; simplify_eq;
    try (split; [done | intros Hs; try done; by apply Hk3]).
  specialize (Hk3 I).
  match type of Hrun with
  | context [match ?x with Some _ => _ | None => _ end] =>
      destruct x as [finalCode|]
  end; [|simplify_eq; split; [done | by intros]].
  destruct (writeToCache H cacheUrl _ st3) as [w st4] eqn:Hw.
  apply writeToCache_inv in Hw as [Hs Hst4].
  destruct w; try done; simplify_eq;
    (split; [|intros _; by destruct Hst4; subst]);
    (destruct Hst4; subst; [done|]);
    (eapply grows_trans; [apply Hg | apply grows_set_disk]).
Qed.

Lemma transformation_framed tm moduleUrl im st r st' :
  (forall url, framed H (tm url im)) ->
  transformedModules st !! moduleUrl = None ->
  transformation H tm moduleUrl im st = (r, st') ->
  grows H st st' /\ (settled r -> keeps st st').
Proof.
  intros Htm Hnone Hrun.
  apply transformation_after_read in Hrun as [Hg Hk]; [|done..].
  split; [|done]. eapply grows_trans; [apply grows_set_reads | apply Hg].
Qed.

Lemma transformModule_framed fuel moduleUrl im :
  framed H (transformModule H fuel moduleUrl im).
Proof.
  revert moduleUrl. induction fuel as [|fuel IH]; intros moduleUrl st r st' Hrun.
  - simpl in Hrun. simplify_eq. split; [apply grows_refl | intros []].
  - simpl in Hrun.
    set (st0 := if clearDenoCache (settings st)
                   && String.eqb (URL_protocol H moduleUrl) "file:"
                then clearDenoCacheForUrl moduleUrl st else st) in *.
    assert (grows H st st0 /\ keeps st st0) as [Hg0 Hk0].
    { clear Hrun. subst st0.
      destruct (clearDenoCache (settings st) && _);
        (split; [auto using grows_refl, grows_clearDenoCache
                | by apply keeps_same]). }
    destruct (transformedModules st0 !! moduleUrl) as [cacheUrl|] eqn:Hmemo.
    { simplify_eq. by split. }
    destruct (decide (moduleUrl ∈ processingModules st0)) as [Hin|Hnotin].
    { destruct (decide (moduleUrl ∈ transformationPromises st0));
        simplify_eq; split; done. }
    destruct (transformation H (transformModule H fuel) moduleUrl im _)
      as [t st3] eqn:Ht.
    apply transformation_framed in Ht as [Hg3 Hk3]; [| by intros; apply IH | done].
    assert (grows H st st3) as Hg.
    { eapply grows_trans; [apply Hg0|].
      eapply grows_trans; [|apply Hg3]. apply grows_set_inFlight. }
    assert (grows H st (clearInFlight moduleUrl st3)) as Hgc.
    { eapply grows_trans; [apply Hg|]. apply grows_set_inFlight. }
    assert (keeps (set_transformationPromises
                     (fun s => {[moduleUrl]} ∪ s)
                     (set_processingModules
                        (fun s => {[moduleUrl]} ∪ s) st0)) st3 ->
            keeps st (clearInFlight moduleUrl st3)) as Hkc.
    { intros [Hp Hq]. destruct Hk0 as [Hp0 Hq0]. simpl in *.
      split; simpl.
      - rewrite Hp, <- Hp0. set_solver.
      - set_solver. }
    destruct t as [cacheUrl | e | u |]; simplify_eq; split; try done;
      intros _; destruct (Hk3 I) as [Hp Hq]; apply Hkc; by split.
Qed.

End Frame.

(** ** The engine: records and termination *)

Section Records.
Context (H : Host).

Lemma afterCacheClearing_fields moduleUrl st :
  settings (afterCacheClearing H moduleUrl st) = settings st
  /\ cache (afterCacheClearing H moduleUrl st) = cache st
  /\ transformedModules (afterCacheClearing H moduleUrl st)
     = transformedModules st
  /\ processingModules (afterCacheClearing H moduleUrl st)
     = processingModules st
  /\ transformationPromises (afterCacheClearing H moduleUrl st)
     = transformationPromises st
  /\ disk (afterCacheClearing H moduleUrl st) = disk st
  /\ reads (afterCacheClearing H moduleUrl st) = reads st
  /\ warnings (afterCacheClearing H moduleUrl st) = warnings st.
Proof. unfold afterCacheClearing. by case_match. Qed.

(** The memoization check: a location with a record is answered from the
    record, without any other step. *)
Lemma transformModule_memo fuel moduleUrl im st cacheUrl :
  transformedModules st !! moduleUrl = Some cacheUrl ->
  transformModule H (S fuel) moduleUrl im st
  = (Resolved cacheUrl, afterCacheClearing H moduleUrl st).
Proof.
  intros Hrec. simpl. fold (afterCacheClearing H moduleUrl st).
  destruct (afterCacheClearing_fields moduleUrl st) as (_ & _ & -> & _).
  by rewrite Hrec.
Qed.

(** The call that finds neither a record nor a marker runs the [try]
    block and then the [finally] block. *)
Lemma transformModule_fresh fuel moduleUrl im st :
  transformedModules st !! moduleUrl = None ->
  moduleUrl ∉ processingModules st ->
  transformModule H (S fuel) moduleUrl im st
  = match transformation H (transformModule H fuel) moduleUrl im
            (markInFlight H moduleUrl st) with
    | (Resolved cacheUrl, st3) =>
        (Resolved cacheUrl, clearInFlight moduleUrl st3)
    | (Rejected e, st3) => (Rejected e, clearInFlight moduleUrl st3)
    | (Awaits u, st3) => (Awaits u, st3)
    | (OutOfFuel, st3) => (OutOfFuel, st3)
    end.
Proof.
  intros Hnone Hnotin. simpl. fold (afterCacheClearing H moduleUrl st).
  destruct (afterCacheClearing_fields moduleUrl st) as (_ & _ & HT & HP & _).
  rewrite HT, Hnone.
  destruct (decide (moduleUrl ∈ processingModules _)) as [Hin|_]; [|done].
  by rewrite HP in Hin.
Qed.

Lemma markInFlight_fields moduleUrl st :
  settings (markInFlight H moduleUrl st) = settings st
  /\ transformedModules (markInFlight H moduleUrl st) = transformedModules st
  /\ reads (markInFlight H moduleUrl st) = reads st
  /\ warnings (markInFlight H moduleUrl st) = warnings st
  /\ disk (markInFlight H moduleUrl st) = disk st.
Proof.
  unfold markInFlight. simpl.
  by destruct (afterCacheClearing_fields moduleUrl st)
    as (-> & _ & -> & _ & _ & -> & -> & ->).
Qed.

Lemma grows_pending st st' : grows H st st' -> pending H st' <= pending H st.
Proof.
  intros Hg. unfold pending, pendingLocations.
  apply subseteq_size.
  pose proof (subseteq_dom _ _ (grows_transformed _ _ _ Hg)).
  set_solver.
Qed.

Lemma grows_registeredInFlight st st' :
  grows H st st' -> keeps st st' ->
  registeredInFlight st -> registeredInFlight st'.
Proof.
  intros Hg [Hp _] Hr. unfold registeredInFlight in *. rewrite Hp.
  pose proof (subseteq_dom _ _ (grows_transformed _ _ _ Hg)).
  set_solver.
Qed.

(** Registering a location that was read takes it out of the pending
    ones. *)
Lemma pending_register st u c :
  transformedModules st !! u = None ->
  u ∈ locations H ->
  S (pending H (set_transformedModules (insert u c) st)) = pending H st.
Proof.
  intros Hnone Hloc. unfold pending, pendingLocations. simpl.
  rewrite dom_insert_L.
  assert (u ∉ dom (transformedModules st)) as Hnotin
    by by apply not_elem_of_dom.
  set (rest := locations H ∖ ({[u]} ∪ dom (transformedModules st))).
  replace (locations H ∖ dom (transformedModules st))
    with (({[u]} : gset string) ∪ rest).
  - assert (({[u]} : gset string) ## rest) as Hdisj by set_solver.
    rewrite (size_union _ _ Hdisj). by rewrite size_singleton.
  - subst rest. apply set_eq. intros x.
    rewrite elem_of_union, !elem_of_difference, elem_of_union,
      elem_of_singleton.
    split.
    + intros [-> | [? ?]]; [done|]. split; [done|]. tauto.
    + intros [? ?]. destruct (decide (x = u)) as [->|]; [by left|].
      right. split; [done|]. tauto.
Qed.

(** A resolved call leaves a record of the location it answered with. *)
Lemma transformModule_registers fuel moduleUrl im st cacheUrl st' :
  (moduleUrl ∈ processingModules st ->
   moduleUrl ∈ dom (transformedModules st)) ->
  transformModule H fuel moduleUrl im st = (Resolved cacheUrl, st') ->
  transformedModules st' !! moduleUrl = Some cacheUrl.
Proof.
  intros Hinv Hrun. destruct fuel as [|fuel]; [done|].
  simpl in Hrun. fold (afterCacheClearing H moduleUrl st) in Hrun.
  destruct (afterCacheClearing_fields moduleUrl st)
    as (_ & _ & HT & HP & _).
  set (st0 := afterCacheClearing H moduleUrl st) in *.
  destruct (transformedModules st0 !! moduleUrl) as [c|] eqn:Hmemo.
  { by simplify_eq. }
  destruct (decide (moduleUrl ∈ processingModules st0)) as [Hin|Hnotin].
  { rewrite HP in Hin. apply Hinv in Hin. rewrite <- HT in Hin.
    apply elem_of_dom in Hin as [? ?]. congruence. }
  match type of Hrun with
  | context [transformation H ?tm moduleUrl im ?s] =>
      destruct (transformation H tm moduleUrl im s) as [t st3] eqn:Ht
  end.
  destruct t; simplify_eq. simpl.
  revert Ht. unfold transformation.
  destruct (readModuleContent H moduleUrl _) as [rd st1] eqn:Hrd.
  apply readModuleContent_inv in Hrd as (-> & Hloc & _).
  destruct rd as [originalCode | | |]; try done.
  destruct (transpileTypeScript H originalCode _) as [transpiledCode|];
    [|done].
  destruct (negb (hasImports H transpiledCode) && _).
  { unfold cacheModule.
    destruct (getCacheUrl H _ moduleUrl _ im) as [c|]; [|done].
    destruct (writeToCache H c _ _) as [[] ?]; intros; simplify_eq.
    simpl. apply lookup_insert_eq. }
  destruct (replaceImports H moduleUrl transpiledCode _)
    as [[replacedCode calls]|]; [|done].
  destruct (getCacheUrl H _ moduleUrl _ im) as [c|]; [|done].
  destruct (processDependenciesParallel H _ _ _ moduleUrl im _)
    as [pd st2] eqn:Hpd.
  apply settleAll_framed in Hpd as [Hg _];
    [|intros; apply transformModule_framed].
  destruct pd; try done.
  case_match; [|done].
  destruct (writeToCache H c _ st2) as [w st4] eqn:Hw.
  apply writeToCache_inv in Hw as [_ Hst4].
  destruct w; intros; simplify_eq.
  assert (transformedModules st2 !! moduleUrl = Some cacheUrl) as Hrec.
  { eapply lookup_weaken; [|apply (grows_transformed _ _ _ Hg)].
    simpl. apply lookup_insert_eq. }
  by destruct Hst4; subst.
Qed.

End Records.

Section Termination.
Context (H : Host).

Lemma settleAll_settles fuel tm edges moduleUrl im acc failure st :
  settlesWithin H fuel tm ->
  (forall url, framed H (tm url im)) ->
  registeredInFlight st -> pending H st < fuel ->
  settled (settleAll H tm edges moduleUrl im acc failure st).1.
Proof.
  intros Htm Hfr. revert acc failure st.
  induction edges as [|specifier rest IH]; intros acc failure st Hreg Hpend.
  - simpl. by destruct failure.
  - simpl.
    destruct (processDependency H tm specifier moduleUrl im st)
      as [d st1] eqn:Hd.
    assert (settled d) as Hs.
    { revert Hd. unfold processDependency. case_match.
      - intros Hd. specialize (Htm s im st Hreg Hpend). by rewrite Hd in Htm.
      - by intros; simplify_eq. }
    apply processDependency_framed in Hd as [Hg Hk]; [|done].
    specialize (Hk Hs).
    pose proof (grows_pending H _ _ Hg) as Hle.
    pose proof (grows_registeredInFlight H _ _ Hg Hk Hreg) as Hreg1.
    destruct d as [cachedUrl | message | |]; try done.
    + apply IH; [done | lia].
    + destruct (fallbackUrl H specifier moduleUrl); apply IH;
        solve [exact Hreg1 | lia | exact (Nat.le_lt_trans _ _ _ Hle Hpend)].
Qed.

Lemma transformModule_settles fuel : settlesWithin H fuel (transformModule H fuel).
Proof.
  induction fuel as [|fuel IH]; intros moduleUrl im st Hreg Hpend; [lia|].
  simpl. fold (afterCacheClearing H moduleUrl st).
  destruct (afterCacheClearing_fields H moduleUrl st)
    as (_ & _ & HT & HP & _).
  set (st0 := afterCacheClearing H moduleUrl st) in *.
  destruct (transformedModules st0 !! moduleUrl) as [c|] eqn:Hmemo; [done|].
  destruct (decide (moduleUrl ∈ processingModules st0)) as [Hin|Hnotin].
  { rewrite HP in Hin. apply Hreg in Hin. rewrite <- HT in Hin.
    apply elem_of_dom in Hin as [? ?]. congruence. }
  match goal with
  | |- context [transformation H ?tm moduleUrl im ?s] =>
      assert (settled (transformation H tm moduleUrl im s).1) as Hs;
      [|by destruct (transformation H tm moduleUrl im s) as [[] ?]]
  end.
  unfold transformation.
  destruct (readModuleContent H moduleUrl _) as [rd st1] eqn:Hrd.
  apply readModuleContent_inv in Hrd as (-> & Hloc & Hsrd).
  destruct rd as [originalCode | | |]; try done.
  specialize (Hloc _ eq_refl).
  destruct (transpileTypeScript H originalCode _) as [transpiledCode|];
    [|done].
  destruct (negb (hasImports H transpiledCode) && _).
  { match goal with
    | |- context [cacheModule H ?u ?c ?i ?s] =>
        destruct (cacheModule H u c i s) as [cm st2] eqn:Hcm
    end.
    by apply cacheModule_framed in Hcm as (_ & _ & ?). }
  destruct (replaceImports H moduleUrl transpiledCode _)
    as [[replacedCode calls]|]; [|done].
  destruct (getCacheUrl H _ moduleUrl _ im) as [cacheUrl|]; [|done].
  match goal with
  | |- context [processDependenciesParallel H ?tm ?o ?l moduleUrl im ?s] =>
      pose proof (settleAll_settles fuel tm (dependencyEdges o l)
                    moduleUrl im ∅ None s IH
                    (fun url => transformModule_framed H fuel url im))
        as Hpd;
      fold (processDependenciesParallel H tm o l moduleUrl im s) in Hpd;
      destruct (processDependenciesParallel H tm o l moduleUrl im s)
        as [pd st3]
  end.
  simpl in Hpd.
  assert (settled pd) as Hspd.
  { apply Hpd.
    - unfold registeredInFlight in *. simpl. rewrite dom_insert_L.
      rewrite HP, HT. set_solver.
    - assert (pending H st0 = pending H st) as Hsame
        by (unfold pending, pendingLocations; by rewrite HT).
      pose proof (pending_register H st0 moduleUrl cacheUrl Hmemo Hloc)
        as Hdec.
      unfold pending, pendingLocations in *. simpl in *. lia. }
  destruct pd; try done.
  case_match; [|done].
  destruct (writeToCache H cacheUrl _ st3) as [w st4] eqn:Hw.
  apply writeToCache_inv in Hw as [? _]. by destruct w.
Qed.

End Termination.

(** ** The engine: the claims *)

(** The engine calls itself for the dependencies of a module only in
    states in which the module has its record. *)
Lemma settleAll_after_registration (H : Host) (moduleUrl : string)
    (tm tm' : string -> option ImportMap -> Async string)
    (im : option ImportMap) :
  (forall url, framed H (tm url im)) ->
  (forall url st,
      is_Some (transformedModules st !! moduleUrl) ->
      tm' url im st = tm url im st) ->
  forall edges acc failure st,
    is_Some (transformedModules st !! moduleUrl) ->
    settleAll H tm' edges moduleUrl im acc failure st
    = settleAll H tm edges moduleUrl im acc failure st.
Proof.
  intros Hfr Hsame edges.
  induction edges as [|specifier rest IH]; intros acc failure st Hrec; [done|].
  simpl. unfold processDependency.
  destruct (if isRelativeOrFileUrl specifier
            then URL_new H specifier (Some moduleUrl)
            else URL_new H specifier None) as [resolvedUrl|].
  - rewrite Hsame by done.
    destruct (tm resolvedUrl im st) as [d st1] eqn:Hd.
    apply Hfr in Hd as [Hg _].
    assert (is_Some (transformedModules st1 !! moduleUrl)) as Hrec1.
    { destruct Hrec as [c Hc]. exists c.
      eapply lookup_weaken; [done | apply (grows_transformed _ _ _ Hg)]. }
    destruct d; try done; [by apply IH|].
    destruct (fallbackUrl H specifier moduleUrl); by apply IH.
  - destruct (fallbackUrl H specifier moduleUrl); by apply IH.
Qed.

Lemma recursion_follows_registration (H : Host) (moduleUrl : string)
    (tm tm' : string -> option ImportMap -> Async string)
    (im : option ImportMap) (st : TsImporter) :
  (forall url, framed H (tm url im)) ->
  (forall url s,
      is_Some (transformedModules s !! moduleUrl) ->
      tm' url im s = tm url im s) ->
  transformation H tm' moduleUrl im st = transformation H tm moduleUrl im st.
Proof.
  intros Hfr Hsame. unfold transformation, processDependenciesParallel.
  destruct (readModuleContent H moduleUrl st) as [[originalCode| | |] st1];
    try done.
  destruct (transpileTypeScript H originalCode _) as [transpiledCode|];
    [|done].
  destruct (negb (hasImports H transpiledCode) && _); [done|].
  destruct (replaceImports H moduleUrl transpiledCode _)
    as [[replacedCode calls]|]; [|done].
  destruct (getCacheUrl H st1 moduleUrl _ im) as [cacheUrl|]; [|done].
  rewrite (settleAll_after_registration H moduleUrl tm tm' im Hfr Hsame);
    [done|].
  simpl. rewrite lookup_insert_eq. by eexists.
Qed.

(** C1: a call of the engine settles, whatever the module graph, cyclic
    ones included, once the recursion bound exceeds the number of
    locations that have no record yet.  The in-flight registry is then as
    before the call, and a resolved call has left its record.  The
    mechanism: the engine calls itself for the dependencies of a module
    only in states in which the module has its record (its transformation
    is the same with any other callback that agrees with the engine on
    such states), and a request for a module that is in flight and has
    its record is answered with the recorded location, with no further
    step. *)
Theorem cyclic_transformation_terminates
    (H : Host) (fuel : nat) (moduleUrl : string) (im : option ImportMap)
    (st : TsImporter) :
  registeredInFlight st ->
  pending H st < fuel ->
  (exists r st',
      transformModule H fuel moduleUrl im st = (r, st')
      /\ settled r
      /\ keeps st st'
      /\ (forall cacheUrl, r = Resolved cacheUrl ->
            transformedModules st' !! moduleUrl = Some cacheUrl))
  /\ (forall tm' s,
        (forall url s',
            is_Some (transformedModules s' !! moduleUrl) ->
            tm' url im s' = transformModule H fuel url im s') ->
        transformation H tm' moduleUrl im s
        = transformation H (transformModule H fuel) moduleUrl im s)
  /\ (forall inFlight cacheUrl n s,
        inFlight ∈ processingModules s ->
        transformedModules s !! inFlight = Some cacheUrl ->
        transformModule H (S n) inFlight im s
        = (Resolved cacheUrl, afterCacheClearing H inFlight s)).
Proof.
  intros Hreg Hpend. split; [|split].
  - destruct (transformModule H fuel moduleUrl im st) as [r st'] eqn:Hrun.
    pose proof (transformModule_settles H fuel moduleUrl im st Hreg Hpend)
      as Hs.
    rewrite Hrun in Hs. simpl in Hs.
    exists r, st'. split; [done|]. split; [done|].
    split; [by apply (transformModule_framed H) in Hrun as [_ Hk]; apply Hk|].
    intros cacheUrl ->. eapply transformModule_registers; [|done].
    intros Hin. by apply Hreg.
  - intros tm' s Hsame. apply recursion_follows_registration; [|done].
    intros url. apply transformModule_framed.
  - intros inFlight cacheUrl n s _ Hrec. by apply transformModule_memo.
Qed.

Lemma cyclic_transformation_terminates_witness :
  (exists r st',
      transformModule Fixture.host 10 "file:///app/a.ts" None Fixture.fresh
      = (r, st')
      /\ settled r
      /\ keeps Fixture.fresh st'
      /\ (forall cacheUrl, r = Resolved cacheUrl ->
            transformedModules st' !! "file:///app/a.ts" = Some cacheUrl))
  /\ (forall tm' s,
        (forall url s',
            is_Some (transformedModules s' !! "file:///app/a.ts") ->
            tm' url None s' = transformModule Fixture.host 10 url None s') ->
        transformation Fixture.host tm' "file:///app/a.ts" None s
        = transformation Fixture.host (transformModule Fixture.host 10)
            "file:///app/a.ts" None s)
  /\ (forall inFlight cacheUrl n s,
        inFlight ∈ processingModules s ->
        transformedModules s !! inFlight = Some cacheUrl ->
        transformModule Fixture.host (S n) inFlight None s
        = (Resolved cacheUrl, afterCacheClearing Fixture.host inFlight s)).
Proof.
  apply cyclic_transformation_terminates.
  - intros u Hu. vm_compute in Hu. discriminate Hu.
  - vm_compute. lia.
Defined.

(** The cycle of the small platform: [a.ts] and [b.ts] are each read once,
    and the cached [b.ts] imports the cache location of [a.ts]. *)
Example cycle_run :
  let run := transformModule Fixture.host 3 "file:///app/a.ts" None
               Fixture.fresh in
  run.1 = Resolved "file:///cache/|!import ./b.ts;export a!file:///app/a.ts"
  /\ reads run.2 = ["file:///app/b.ts"; "file:///app/a.ts"]
  /\ disk run.2 !! "file:///cache/|!import ./a.ts;export b!file:///app/b.ts"
     = Some "// file:///app/b.ts;import file:///cache/|!import ./b.ts;export a!file:///app/a.ts;export b"
  /\ elements (processingModules run.2) = [].
Proof. vm_compute. repeat split. Qed.

(** C5: after a call of the engine on a module has resolved, a second call
    on the same module under the same table resolves to the same cache
    location; it is answered by the memoization check alone, so that it
    reads no source, writes no file and adds no record. *)
Theorem transform_twice_is_memoized
    (H : Host) (fuel fuel2 : nat) (moduleUrl : string)
    (im : option ImportMap) (st : TsImporter) (cacheUrl : string)
    (st1 : TsImporter) :
  registeredInFlight st ->
  transformModule H fuel moduleUrl im st = (Resolved cacheUrl, st1) ->
  exists st2,
    transformModule H (S fuel2) moduleUrl im st1 = (Resolved cacheUrl, st2)
    /\ st2 = afterCacheClearing H moduleUrl st1
    /\ reads st2 = reads st1
    /\ transformedModules st2 = transformedModules st1
    /\ disk st2 = disk st1.
Proof.
  intros Hreg Hrun.
  assert (transformedModules st1 !! moduleUrl = Some cacheUrl) as Hrec.
  { eapply transformModule_registers; [|done]. intros Hin. by apply Hreg. }
  exists (afterCacheClearing H moduleUrl st1).
  split; [by apply transformModule_memo|]. split; [done|].
  by destruct (afterCacheClearing_fields H moduleUrl st1)
    as (_ & _ & -> & _ & _ & -> & -> & _).
Qed.

Lemma transform_twice_is_memoized_witness :
  exists st2,
    transformModule Fixture.host 1 "file:///app/a.ts" None Fixture.afterCycle
    = (Resolved "file:///cache/|!import ./b.ts;export a!file:///app/a.ts", st2)
    /\ st2 = afterCacheClearing Fixture.host "file:///app/a.ts"
               Fixture.afterCycle
    /\ reads st2 = reads Fixture.afterCycle
    /\ transformedModules st2 = transformedModules Fixture.afterCycle
    /\ disk st2 = disk Fixture.afterCycle.
Proof.
  apply (transform_twice_is_memoized Fixture.host 3 0 "file:///app/a.ts" None
           Fixture.fresh).
  - intros u Hu. vm_compute in Hu. discriminate Hu.
  - vm_compute. reflexivity.
Defined.

(** C7: a call of the engine that finds neither a record nor an in-flight
    marker for the module adds the marker; when the call has settled, by
    resolving or by rejecting, the module is in neither the
    processing-modules set nor the pending-promise map, and the set is
    what it was before the call. *)
Theorem in_flight_marker_is_cleared
    (H : Host) (fuel : nat) (moduleUrl : string) (im : option ImportMap)
    (st : TsImporter) (r : Settled string) (st' : TsImporter) :
  transformedModules st !! moduleUrl = None ->
  moduleUrl ∉ processingModules st ->
  transformModule H fuel moduleUrl im st = (r, st') ->
  settled r ->
  (moduleUrl ∉ processingModules st')
  /\ (moduleUrl ∉ transformationPromises st')
  /\ processingModules st' = processingModules st.
Proof.
  intros Hnone Hnotin Hrun Hs.
  pose proof (transformModule_framed H fuel moduleUrl im st r st' Hrun)
    as [_ Hk].
  destruct (Hk Hs) as [Hp _].
  split; [by rewrite Hp|]. split; [|done].
  destruct fuel as [|fuel]; [simpl in Hrun; simplify_eq; elim Hs|].
  simpl in Hrun. fold (afterCacheClearing H moduleUrl st) in Hrun.
  destruct (afterCacheClearing_fields H moduleUrl st)
    as (_ & _ & HT & HP & _).
  rewrite HT, Hnone in Hrun.
  destruct (decide (moduleUrl ∈ processingModules _)) as [Hin|_].
  { by rewrite HP in Hin. }
  match type of Hrun with
  | context [transformation H ?tm moduleUrl im ?s] =>
      destruct (transformation H tm moduleUrl im s) as [t st3]
  end.
  destruct t; simplify_eq; try done; simpl; set_solver.
Qed.

Lemma in_flight_marker_is_cleared_witness :
  (("file:///app/a.ts" ∉ processingModules Fixture.afterCycle)
   /\ ("file:///app/a.ts" ∉ transformationPromises Fixture.afterCycle)
   /\ processingModules Fixture.afterCycle = processingModules Fixture.fresh)
  /\ (("file:///app/missing.ts" ∉ processingModules Fixture.afterMissing)
      /\ ("file:///app/missing.ts"
            ∉ transformationPromises Fixture.afterMissing)
      /\ processingModules Fixture.afterMissing
         = processingModules Fixture.fresh).
Proof.
  split.
  - apply (in_flight_marker_is_cleared Fixture.host 3 "file:///app/a.ts" None
             Fixture.fresh
             (Resolved
                "file:///cache/|!import ./b.ts;export a!file:///app/a.ts")).
    + vm_compute. reflexivity.
    + intros Hu. vm_compute in Hu. discriminate Hu.
    + vm_compute. reflexivity.
    + exact I.
  - apply (in_flight_marker_is_cleared Fixture.host 3
             "file:///app/missing.ts" None Fixture.fresh
             (Rejected "No such file or directory")).
    + vm_compute. reflexivity.
    + intros Hu. vm_compute in Hu. discriminate Hu.
    + vm_compute. reflexivity.
    + exact I.
Defined.

(** The cache location of a module that had no record is the one
    [#getCacheUrl] derives from the module's URL, a text and the table of
    the request. *)
Lemma transformModule_location
    (H : Host) (fuel : nat) (moduleUrl : string) (im : option ImportMap)
    (st : TsImporter) (cacheUrl : string) (st' : TsImporter) :
  transformedModules st !! moduleUrl = None ->
  moduleUrl ∉ processingModules st ->
  transformModule H fuel moduleUrl im st = (Resolved cacheUrl, st') ->
  exists code, getCacheUrl H st moduleUrl code im = Some cacheUrl.
Proof.
  intros Hnone Hnotin Hrun. destruct fuel as [|fuel]; [done|].
  simpl in Hrun. fold (afterCacheClearing H moduleUrl st) in Hrun.
  destruct (afterCacheClearing_fields H moduleUrl st)
    as (HS & _ & HT & HP & _).
  rewrite HT, Hnone in Hrun.
  destruct (decide (moduleUrl ∈ processingModules _)) as [Hin|_].
  { by rewrite HP in Hin. }
  match type of Hrun with
  | context [transformation H ?tm moduleUrl im ?s] =>
      destruct (transformation H tm moduleUrl im s) as [t st3] eqn:Ht
  end.
  destruct t; simplify_eq.
  revert Ht. unfold transformation.
  destruct (readModuleContent H moduleUrl _) as [rd st1] eqn:Hrd.
  apply readModuleContent_inv in Hrd as (-> & _ & _).
  destruct rd as [originalCode | | |]; try done.
  destruct (transpileTypeScript H originalCode _) as [transpiledCode|];
    [|done].
  unfold cacheModule, getCacheUrl in *. simpl. rewrite HS.
  destruct (negb (hasImports H transpiledCode) && _).
  { match goal with
    | |- context [URL_new H ("file://" +:+ join H _ (getCachePath H _ ?c _))] =>
        destruct (URL_new H ("file://" +:+ join H (cacheDir (settings st))
                               (getCachePath H moduleUrl c
                                  (default (mkImportMap [] None) im))) None)
          as [u|] eqn:Hu; [|done]; exists c
    end.
    destruct (writeToCache H u _ _) as [[] ?]; intros; by simplify_eq. }
  destruct (replaceImports H moduleUrl transpiledCode _)
    as [[replacedCode calls]|]; [|done].
  match goal with
  | |- context [URL_new H ("file://" +:+ join H _ (getCachePath H _ ?c _))] =>
      destruct (URL_new H ("file://" +:+ join H (cacheDir (settings st))
                             (getCachePath H moduleUrl c
                                (default (mkImportMap [] None) im))) None)
        as [u|] eqn:Hu; [|done]; exists c
  end.
  destruct (processDependenciesParallel H _ _ _ moduleUrl im _) as [[] ?];
    try done.
  case_match; [|done].
  destruct (writeToCache H u _ _) as [[] ?]; intros; by simplify_eq.
Qed.

(** C4, as the code has it: the transformation records are kept by module
    URL alone.  Once a request for a module has resolved, a request for
    the same module under any other table, on the same instance, resolves
    to the location of the first one and adds neither a record nor a file.
    The table enters the cache location only when the module has no record
    yet: the location is then the one [#getCacheUrl] derives from the URL,
    a text and that table. *)
Theorem one_record_per_module
    (H : Host) (fuel fuel2 : nat) (moduleUrl : string)
    (im1 im2 : option ImportMap) (st : TsImporter) (cacheUrl : string)
    (st1 : TsImporter) :
  registeredInFlight st ->
  transformModule H fuel moduleUrl im1 st = (Resolved cacheUrl, st1) ->
  (exists st2,
     transformModule H (S fuel2) moduleUrl im2 st1 = (Resolved cacheUrl, st2)
     /\ transformedModules st2 = transformedModules st1
     /\ disk st2 = disk st1)
  /\ (transformedModules st !! moduleUrl = None ->
      exists code, getCacheUrl H st moduleUrl code im1 = Some cacheUrl).
Proof.
  intros Hreg Hrun. split.
  - assert (transformedModules st1 !! moduleUrl = Some cacheUrl) as Hrec.
    { eapply transformModule_registers; [|done]. intros Hin. by apply Hreg. }
    exists (afterCacheClearing H moduleUrl st1).
    split; [by apply transformModule_memo|].
    by destruct (afterCacheClearing_fields H moduleUrl st1)
      as (_ & _ & -> & _ & _ & -> & _).
  - intros Hnone. eapply transformModule_location; [done| |done].
    intros Hin. apply Hreg in Hin. apply elem_of_dom in Hin as [? ?].
    congruence.
Qed.

Lemma one_record_per_module_witness :
  (exists st2,
     transformModule Fixture.host 1 "file:///pkg/mod.ts"
       (Some Fixture.discovered) Fixture.afterExplicit
     = (Resolved
          "file:///cache/@x=file:///pkg/explicit.ts|!import file:///pkg/explicit.ts;export m!file:///pkg/mod.ts",
        st2)
     /\ transformedModules st2 = transformedModules Fixture.afterExplicit
     /\ disk st2 = disk Fixture.afterExplicit)
  /\ (transformedModules Fixture.fresh !! "file:///pkg/mod.ts" = None ->
      exists code,
        getCacheUrl Fixture.host Fixture.fresh "file:///pkg/mod.ts" code
          (Some Fixture.tableExplicit)
        = Some
            "file:///cache/@x=file:///pkg/explicit.ts|!import file:///pkg/explicit.ts;export m!file:///pkg/mod.ts").
Proof.
  apply (one_record_per_module Fixture.host 3 0 "file:///pkg/mod.ts"
           (Some Fixture.tableExplicit) (Some Fixture.discovered)
           Fixture.fresh).
  - intros u Hu. vm_compute in Hu. discriminate Hu.
  - vm_compute. reflexivity.
Defined.

(** Two requests for [mod.ts] on one instance, under two tables that a
    fresh instance tells apart: both are answered with the location of
    the first. *)
Lemma second_table_reuses_the_cache_entry :
  Fixture.tableExplicit <> Fixture.discovered
  /\ (transformModule Fixture.host 3 "file:///pkg/mod.ts"
        (Some Fixture.tableExplicit) Fixture.fresh).1
     = Resolved
         "file:///cache/@x=file:///pkg/explicit.ts|!import file:///pkg/explicit.ts;export m!file:///pkg/mod.ts"
  /\ (transformModule Fixture.host 3 "file:///pkg/mod.ts"
        (Some Fixture.discovered) Fixture.afterExplicit).1
     = Resolved
         "file:///cache/@x=file:///pkg/explicit.ts|!import file:///pkg/explicit.ts;export m!file:///pkg/mod.ts"
  /\ (transformModule Fixture.host 3 "file:///pkg/mod.ts"
        (Some Fixture.discovered) Fixture.fresh).1
     = Resolved
         "file:///cache/@x=file:///pkg/discovered.ts|!import file:///pkg/discovered.ts;export m!file:///pkg/mod.ts".
Proof.
  split; [discriminate|].
  split; [vm_compute; reflexivity|].
  split; vm_compute; reflexivity.
Qed.

(** ** The public method: the claims *)

(** C9: a specifier that is in the memory cache is answered with the
    module value stored there and the instance is left as it is, whatever
    import map is passed to the call. *)
Theorem memory_cache_hit_ignores_import_map
    (H : Host) (fuel : nat) (specifier : string)
    (importMapArg : option ImportMap) (st : TsImporter)
    (module : ModuleValue) :
  cache st !! specifier = Some module ->
  import H fuel specifier importMapArg st = (Resolved module, st).
Proof. intros Hhit. unfold import. by rewrite Hhit. Qed.

(** A resolved [import] leaves its module value in the memory cache. *)
Lemma import_fills_memory_cache
    (H : Host) (fuel : nat) (specifier : string)
    (importMapArg : option ImportMap) (st : TsImporter)
    (module : ModuleValue) (st' : TsImporter) :
  import H fuel specifier importMapArg st = (Resolved module, st') ->
  cache st' !! specifier = Some module.
Proof.
  unfold import. intros Hrun.
  destruct (cache st !! specifier) as [m|] eqn:Hhit; [by simplify_eq|].
  destruct (URL_new H specifier _) as [url|]; [|done].
  destruct (discoverImportMap H _ url importMapArg) as [eff|]; [|done].
  destruct (transformModule H fuel url eff _) as [[transformedUrl| | |] st1];
    try done.
  destruct (dynamicImport H (disk st1) transformedUrl); [|done].
  simplify_eq. simpl. apply lookup_insert_eq.
Qed.

Lemma memory_cache_hit_ignores_import_map_witness :
  import Fixture.host 0 "file:///pkg/mod.ts" (Some Fixture.tableExplicit)
    Fixture.afterImport
  = (Resolved
       "// file:///pkg/mod.ts;import file:///cache/@x=file:///pkg/discovered.ts|!export discovered!file:///pkg/discovered.ts;export m",
     Fixture.afterImport).
Proof.
  apply memory_cache_hit_ignores_import_map.
  vm_compute. reflexivity.
Defined.

(** The working directory of the process plays no part in the engine. *)
Lemma settleAll_withCwd (H : Host) (dir : string)
    (tm1 tm2 : string -> option ImportMap -> Async string) :
  (forall url im st, tm1 url im st = tm2 url im st) ->
  forall edges moduleUrl im acc failure st,
    settleAll (withCwd H dir) tm1 edges moduleUrl im acc failure st
    = settleAll H tm2 edges moduleUrl im acc failure st.
Proof.
  intros Hext edges moduleUrl im.
  induction edges as [|specifier rest IH]; intros acc failure st; [done|].
  simpl. unfold processDependency, fallbackUrl. simpl.
  destruct (if isRelativeOrFileUrl specifier
            then URL_new H specifier (Some moduleUrl)
            else URL_new H specifier None) as [resolvedUrl|].
  - rewrite Hext. destruct (tm2 resolvedUrl im st) as [[] ?]; try done.
    destruct (if isRelativeOrFileUrl specifier
              then URL_new H specifier (Some moduleUrl)
              else Some specifier); apply IH.
  - destruct (if isRelativeOrFileUrl specifier
              then URL_new H specifier (Some moduleUrl)
              else Some specifier); apply IH.
Qed.

Lemma collectReplacements_withCwd (H : Host) (dir : string)
    (dependencies : list string) (replacer : string -> string) :
  forall specifierReplacements calls,
    collectReplacements (withCwd H dir) dependencies replacer
      specifierReplacements calls
    = collectReplacements H dependencies replacer specifierReplacements calls.
Proof.
  induction dependencies as [|specifier rest IH]; intros sr calls; [done|].
  simpl. destruct (isRemoteSpecifier specifier); [apply IH|].
  destruct (isJsrOrNpmSpecifier specifier).
  - destruct (resolveRegistry H specifier); [apply IH | done].
  - destruct (String.eqb specifier (replacer specifier)); apply IH.
Qed.

Lemma replaceImports_withCwd (H : Host) (dir : string)
    (specifier sourceCode : string) (replacer : string -> string) :
  replaceImports (withCwd H dir) specifier sourceCode replacer
  = replaceImports H specifier sourceCode replacer.
Proof.
  unfold replaceImports. simpl.
  destruct (graphDependencies H specifier sourceCode); [|done].
  by rewrite collectReplacements_withCwd.
Qed.

Lemma transformation_withCwd (H : Host) (dir : string)
    (tm1 tm2 : string -> option ImportMap -> Async string) :
  (forall url im st, tm1 url im st = tm2 url im st) ->
  forall moduleUrl im st,
    transformation (withCwd H dir) tm1 moduleUrl im st
    = transformation H tm2 moduleUrl im st.
Proof.
  intros Hext moduleUrl im st.
  unfold transformation, processDependenciesParallel.
  change (readModuleContent (withCwd H dir) moduleUrl st)
    with (readModuleContent H moduleUrl st).
  destruct (readModuleContent H moduleUrl st) as [[originalCode| | |] st1];
    try done.
  change (transpileTypeScript (withCwd H dir)) with (transpileTypeScript H).
  destruct (transpileTypeScript H originalCode _) as [transpiledCode|];
    [|done].
  change (hasImports (withCwd H dir)) with (hasImports H).
  change (hasImportMetaUrl (withCwd H dir)) with (hasImportMetaUrl H).
  destruct (negb (hasImports H transpiledCode) && _); [done|].
  rewrite replaceImports_withCwd.
  destruct (replaceImports H moduleUrl transpiledCode _)
    as [[replacedCode calls]|]; [|done].
  change (replaceImportMeta (withCwd H dir)) with (replaceImportMeta H).
  change (getCacheUrl (withCwd H dir)) with (getCacheUrl H).
  destruct (getCacheUrl H st1 moduleUrl _ im) as [cacheUrl|]; [|done].
  rewrite (settleAll_withCwd H dir tm1 tm2 Hext).
  destruct (settleAll H tm2 _ moduleUrl im ∅ None _)
    as [[transformedToCachedUrls| | |] st3]; try done.
  by rewrite replaceImports_withCwd.
Qed.

Lemma transformModule_withCwd (H : Host) (dir : string) (fuel : nat) :
  forall moduleUrl im st,
    transformModule (withCwd H dir) fuel moduleUrl im st
    = transformModule H fuel moduleUrl im st.
Proof.
  induction fuel as [|fuel IH]; intros moduleUrl im st; [done|].
  simpl.
  destruct (transformedModules _ !! moduleUrl); [done|].
  destruct (decide (moduleUrl ∈ processingModules _)); [done|].
  by rewrite (transformation_withCwd H dir _ _ IH).
Qed.

Lemma import_withCwd (H : Host) (dir : string) (fuel : nat)
    (specifier : string) (importMapArg : option ImportMap) (st : TsImporter) :
  import (withCwd H dir) fuel specifier importMapArg st
  = import H fuel specifier importMapArg st.
Proof.
  unfold import. destruct (cache st !! specifier); [done|]. simpl.
  destruct (URL_new H specifier _) as [url|]; [|done].
  change (discoverImportMap (withCwd H dir)) with (discoverImportMap H).
  destruct (discoverImportMap H _ url importMapArg) as [eff|]; [|done].
  by rewrite transformModule_withCwd.
Qed.

(** C10: [import] resolves its specifier with [import.meta.url] as the
    base.  On a miss of the memory cache, with [url] the result of that
    resolution and no record of [url] yet, the first location [import]
    reads is [url]; the outcome is the same from every working directory;
    and for a specifier that is an absolute URL, [url] is the specifier
    parsed on its own. *)
Theorem import_resolves_against_import_meta_url
    (H : Host) (fuel : nat) (specifier : string)
    (importMapArg : option ImportMap) (st : TsImporter) (url : string) :
  cache st !! specifier = None ->
  URL_new H specifier (Some (import_meta_url H)) = Some url ->
  is_Some (discoverImportMap H st url importMapArg) ->
  transformedModules st !! url = None ->
  url ∉ processingModules st ->
  (exists later,
     reads (import H (S fuel) specifier importMapArg st).2
     = later ++ url :: reads st)
  /\ (forall dir,
        import (withCwd H dir) (S fuel) specifier importMapArg st
        = import H (S fuel) specifier importMapArg st)
  /\ (absoluteURL H specifier -> URL_new H specifier None = Some url).
Proof.
  intros Hmiss Hurl [eff Heff] Hnone Hnotin.
  split; [|split; [intros dir; apply import_withCwd|]].
  2: { intros Habs. by rewrite <- (Habs (import_meta_url H)). }
  unfold import. rewrite Hmiss, Hurl.
  set (st0 := if clearDenoCache (settings st)
              then clearDenoCacheForUrl url st else st).
  assert (settings st0 = settings st
          /\ transformedModules st0 = transformedModules st
          /\ processingModules st0 = processingModules st
          /\ reads st0 = reads st) as (HS & HT & HP & HR).
  { subst st0. by destruct (clearDenoCache (settings st)). }
  assert (discoverImportMap H st0 url importMapArg = Some eff) as ->.
  { rewrite <- Heff. unfold discoverImportMap. by rewrite HS. }
  rewrite transformModule_fresh by (by rewrite ?HT, ?HP).
  destruct (markInFlight_fields H url st0) as (_ & HT' & HR' & _).
  destruct (transformation H _ url eff _) as [t st3] eqn:Ht.
  apply transformation_after_read in Ht as [[_ _ _ _ [later Hreads] _] _];
    [|intros; apply transformModule_framed | by rewrite HT', HT].
  change (reads (set_reads (cons url) (markInFlight H url st0)))
    with (url :: reads (markInFlight H url st0)) in Hreads.
  rewrite HR', HR in Hreads.
  exists later.
  destruct t as [transformedUrl | | |]; simpl; try done.
  by destruct (dynamicImport H _ transformedUrl).
Qed.

Lemma import_resolves_against_import_meta_url_witness :
  (exists later,
     reads (import Fixture.host 3 "./rel.ts" None Fixture.fresh).2
     = later ++ "file:///lib/rel.ts" :: reads Fixture.fresh)
  /\ (forall dir,
        import (withCwd Fixture.host dir) 3 "./rel.ts" None Fixture.fresh
        = import Fixture.host 3 "./rel.ts" None Fixture.fresh)
  /\ (absoluteURL Fixture.host "./rel.ts" ->
      URL_new Fixture.host "./rel.ts" None = Some "file:///lib/rel.ts").
Proof.
  apply import_resolves_against_import_meta_url.
  - vm_compute. reflexivity.
  - vm_compute. reflexivity.
  - vm_compute. eexists. reflexivity.
  - vm_compute. reflexivity.
  - intros Hu. vm_compute in Hu. discriminate Hu.
Defined.

(** On the small platform: the relative [./rel.ts] is read next to the
    importer's own file, not in the working directory, and an absolute
    URL is read as given. *)
Example import_relative_and_absolute :
  import_meta_url Fixture.host = "file:///lib/ts_importer.ts"
  /\ cwd Fixture.host = "/home/user/project"
  /\ reads (import Fixture.host 3 "./rel.ts" None Fixture.fresh).2
     = ["file:///lib/rel.ts"]
  /\ reads (import Fixture.host 3 "file:///app/leaf.ts" None Fixture.fresh).2
     = ["file:///app/leaf.ts"].
Proof. vm_compute. repeat split. Qed.

(** ** Failure of a dependency *)

Section Isolation.
Context (H : Host).

Lemma edgeCached_grows moduleUrl m m' st st' e :
  grows H st st' -> m' !! e = m !! e ->
  edgeCached H moduleUrl m st e -> edgeCached H moduleUrl m' st' e.
Proof.
  intros Hg Hm (url & cacheUrl & Hu & Hme & Hrec).
  exists url, cacheUrl. split; [done|]. split; [by rewrite Hm|].
  eapply lookup_weaken; [done | apply (grows_transformed _ _ _ Hg)].
Qed.

Lemma edgeFellBack_grows moduleUrl m m' st st' e :
  grows H st st' -> m' !! e = m !! e ->
  edgeFellBack H moduleUrl m st e -> edgeFellBack H moduleUrl m' st' e.
Proof.
  intros Hg Hm (resolvedUrl & message & Hf & Hme & Hw).
  exists resolvedUrl, message. split; [done|]. split; [by rewrite Hm|].
  destruct (grows_warnings _ _ _ Hg) as [l ->].
  apply elem_of_app. by right.
Qed.

(** The promises of the edges all settle without a rejection, each edge
    cached or fallen back, when every relative specifier among them
    resolves against the URL of the module; an edge to a dependency that
    has its record already is mapped to the recorded location. *)
Lemma settleAll_isolated fuel edges moduleUrl im :
  (forall e, e ∈ edges -> is_Some (fallbackUrl H e moduleUrl)) ->
  forall acc st,
    registeredInFlight st -> pending H st < fuel ->
    exists m st',
      settleAll H (transformModule H fuel) edges moduleUrl im acc None st
      = (Resolved m, st')
      /\ grows H st st'
      /\ keeps st st'
      /\ (forall e, e ∈ edges ->
            edgeCached H moduleUrl m st' e \/ edgeFellBack H moduleUrl m st' e)
      /\ (forall e url c,
            e ∈ edges ->
            dependencyUrl H e moduleUrl = Some url ->
            transformedModules st !! url = Some c ->
            m !! e = Some c)
      /\ (forall e, e ∉ edges -> m !! e = acc !! e)
      /\ (forall e url,
            e ∈ edges ->
            dependencyUrl H e moduleUrl = Some url ->
            transformable H fuel im st url ->
            edgeCached H moduleUrl m st' e).
Proof.
  induction edges as [|e0 rest IH]; intros Hres acc st Hreg Hpend.
  { exists acc, st. simpl. split; [done|]. split; [apply grows_refl|].
    split; [apply keeps_refl|].
    split; [intros e He; by apply elem_of_nil in He|].
    split; [intros e ? ? He; by apply elem_of_nil in He|].
    split; [done|]. intros e url He. by apply elem_of_nil in He. }
  assert (forall e, e ∈ rest -> is_Some (fallbackUrl H e moduleUrl)) as Hres'
    by (intros e He; apply Hres; by right).
  destruct (Hres e0) as [resolvedUrl Hfb]; [by left|].
  (* the state and the table after the promise of [e0] has settled *)
  assert (exists acc1 st1,
             settleAll H (transformModule H fuel) (e0 :: rest) moduleUrl im
               acc None st
             = settleAll H (transformModule H fuel) rest moduleUrl im
                 acc1 None st1
             /\ grows H st st1 /\ keeps st st1
             /\ (edgeCached H moduleUrl acc1 st1 e0
                 \/ edgeFellBack H moduleUrl acc1 st1 e0)
             /\ (forall url c,
                   dependencyUrl H e0 moduleUrl = Some url ->
                   transformedModules st !! url = Some c ->
                   acc1 !! e0 = Some c)
             /\ (forall e, e <> e0 -> acc1 !! e = acc !! e)
             /\ (forall url,
                   dependencyUrl H e0 moduleUrl = Some url ->
                   transformable H fuel im st url ->
                   edgeCached H moduleUrl acc1 st1 e0))
    as (acc1 & st1 & Hstep & Hg1 & Hk1 & Hq1 & Hrec1 & Hother & Htr1).
  { simpl. unfold processDependency. fold (dependencyUrl H e0 moduleUrl).
    destruct (dependencyUrl H e0 moduleUrl) as [url|] eqn:Hurl.
    - destruct (transformModule H fuel url im st) as [d st1] eqn:Hd.
      pose proof (transformModule_settles H fuel url im st Hreg Hpend) as Hs.
      rewrite Hd in Hs. simpl in Hs.
      pose proof (transformModule_framed H fuel url im st d st1 Hd)
        as [Hg Hk].
      specialize (Hk Hs).
      assert (forall c, transformedModules st !! url = Some c ->
                        d = Resolved c) as Hmemo.
      { intros c Hc. destruct fuel as [|n]; [lia|].
        rewrite (transformModule_memo H n url im st c Hc) in Hd.
        by simplify_eq. }
      destruct d as [cacheUrl | message | |]; try done.
      + assert (edgeCached H moduleUrl (<[e0 := cacheUrl]> acc) st1 e0)
          as Hcached.
        { exists url, cacheUrl. split; [done|].
          split; [apply lookup_insert_eq|].
          eapply transformModule_registers; [|done].
          intros Hin. by apply Hreg. }
        exists (<[e0 := cacheUrl]> acc), st1.
        split; [done|]. split; [done|]. split; [done|].
        split; [by left|]. split; [|split].
        * intros url' c Hurl' Hc. simplify_eq.
          specialize (Hmemo c Hc). simplify_eq. apply lookup_insert_eq.
        * intros e Hne. by apply lookup_insert_ne.
        * done.
      + rewrite Hfb.
        exists (<[e0 := resolvedUrl]> acc),
          (set_warnings (cons (warningFor e0 message)) st1).
        split; [done|].
        split; [eapply grows_trans; [done | apply grows_set_warnings]|].
        split; [by destruct Hk|]. split; [|split; [|split]].
        * right. exists resolvedUrl, message. split; [done|].
          split; [apply lookup_insert_eq|]. simpl. by left.
        * intros url' c Hurl' Hc. simplify_eq.
          by specialize (Hmemo c Hc).
        * intros e Hne. by apply lookup_insert_ne.
        * intros url' Hurl' Htr. simplify_eq.
          destruct (Htr st (grows_refl H st) Hreg Hpend) as (c & st1' & Hc).
          congruence.
    - rewrite Hfb.
      exists (<[e0 := resolvedUrl]> acc),
        (set_warnings (cons (warningFor e0 "Invalid URL")) st).
      split; [done|]. split; [apply grows_set_warnings|].
      split; [by apply keeps_same|]. split; [|split; [|split]].
      + right. exists resolvedUrl, "Invalid URL". split; [done|].
        split; [apply lookup_insert_eq|]. simpl. by left.
      + by intros url' c Hurl'.
      + intros e Hne. by apply lookup_insert_ne.
      + by intros url' Hurl'. }
  destruct (IH Hres' acc1 st1)
    as (m & st' & Hrun & Hg & Hk & Hq & Hrec & Hrest & Htr).
  { by eapply grows_registeredInFlight. }
  { pose proof (grows_pending H _ _ Hg1). lia. }
  exists m, st'. split; [by rewrite Hstep|].
  split; [by eapply grows_trans|]. split; [by eapply keeps_trans|].
  split; [|split; [|split]].
  - intros e He. destruct (decide (e ∈ rest)) as [Hin|Hnotin]; [by apply Hq|].
    apply elem_of_cons in He as [-> | ?]; [|done].
    specialize (Hrest e0 Hnotin).
    destruct Hq1 as [Hc | Hf].
    + left. by eapply edgeCached_grows.
    + right. by eapply edgeFellBack_grows.
  - intros e url c He Hurl Hc.
    destruct (decide (e ∈ rest)) as [Hin|Hnotin].
    + eapply Hrec; [done | done |].
      eapply lookup_weaken; [done | apply (grows_transformed _ _ _ Hg1)].
    + apply elem_of_cons in He as [-> | ?]; [|done].
      rewrite (Hrest e0 Hnotin). by eapply Hrec1.
  - intros e He. apply not_elem_of_cons in He as [Hne Hnotin].
    rewrite Hrest by done. by apply Hother.
  - intros e url He Hurl Htre.
    destruct (decide (e ∈ rest)) as [Hin|Hnotin].
    + eapply Htr; [done | done |].
      intros st2 Hg2 Hreg2 Hpend2. apply Htre; [|done | done].
      by eapply grows_trans.
    + apply elem_of_cons in He as [-> | ?]; [|done].
      eapply edgeCached_grows; [done | by apply Hrest |].
      by eapply Htr1.
Qed.

End Isolation.

Lemma readModuleContent_result (H : Host) (moduleUrl : string)
    (st st0 : TsImporter) :
  readModuleContent H moduleUrl st
  = ((readModuleContent H moduleUrl st0).1, set_reads (cons moduleUrl) st).
Proof. unfold readModuleContent. by repeat case_match. Qed.

(** The rewriting passes cannot fail on a platform whose registry
    resolution cannot. *)
Lemma collectReplacements_total (H : Host) (dependencies : list string)
    (replacer : string -> string) :
  (forall s, is_Some (resolveRegistry H s)) ->
  forall specifierReplacements calls,
    is_Some (collectReplacements H dependencies replacer
               specifierReplacements calls).
Proof.
  intros Hreg. induction dependencies as [|specifier rest IH];
    intros sr calls; simpl; [done|].
  destruct (isRemoteSpecifier specifier); [apply IH|].
  destruct (isJsrOrNpmSpecifier specifier).
  - destruct (Hreg specifier) as [n ->]. apply IH.
  - destruct (String.eqb specifier (replacer specifier)); apply IH.
Qed.

Lemma replaceImports_total (H : Host) (specifier sourceCode : string)
    (replacer : string -> string) :
  (forall s, is_Some (resolveRegistry H s)) ->
  is_Some (replaceImports H specifier sourceCode replacer).
Proof.
  intros Hreg. unfold replaceImports.
  destruct (graphDependencies H specifier sourceCode) as [deps|]; [|done].
  destruct (collectReplacements_total H deps replacer Hreg [] [])
    as [[sr calls] ->].
  done.
Qed.

(** * Further properties of the code *)

(** ** Strings *)

Lemma append_nil_l (s : string) : EmptyString +:+ s = s.
Proof. reflexivity. Qed.

Lemma append_cons (c : ascii) (s t : string) :
  String c s +:+ t = String c (s +:+ t).
Proof. reflexivity. Qed.

Lemma append_empty_r (s : string) : s +:+ EmptyString = s.
Proof.
  induction s as [|c s IH]; [done|]. by rewrite append_cons, IH.
Qed.

Lemma append_assoc (a b c : string) : (a +:+ b) +:+ c = a +:+ (b +:+ c).
Proof.
  induction a as [|x a IH]; [done|]. by rewrite !append_cons, IH.
Qed.

Lemma startsWith_append (p r : string) : Js.startsWith (p +:+ r) p = true.
Proof.
  unfold Js.startsWith. induction p as [|c p IH].
  - rewrite append_nil_l. by destruct r.
  - rewrite append_cons. simpl. destruct (ascii_dec c c); [done | congruence].
Qed.

Lemma startsWith_inv (s p : string) :
  Js.startsWith s p = true -> s = p +:+ Js.slice s (String.length p).
Proof.
  unfold Js.startsWith. revert s.
  induction p as [|c p IH]; intros s Hp; [by destruct s|].
  destruct s as [|d s]; [done|]. simpl in Hp.
  destruct (ascii_dec c d) as [->|]; [|done].
  rewrite append_cons. simpl. f_equal. by apply IH.
Qed.

Lemma startsWith_trans (s p q : string) :
  Js.startsWith s p = true -> Js.startsWith p q = true ->
  Js.startsWith s q = true.
Proof.
  intros Hs Hp. apply startsWith_inv in Hs, Hp.
  rewrite Hs, Hp, append_assoc. apply startsWith_append.
Qed.

Lemma slice_append (p r : string) : Js.slice (p +:+ r) (String.length p) = r.
Proof.
  induction p as [|c p IH]; [by destruct r|]. by rewrite append_cons.
Qed.

Lemma take_append (p r : string) :
  TextEdit.take (p +:+ r) (String.length p) = p.
Proof.
  induction p as [|c p IH]; [by destruct r|].
  rewrite append_cons. simpl. by rewrite IH.
Qed.

Lemma length_append (a b : string) :
  String.length (a +:+ b) = String.length a + String.length b.
Proof.
  induction a as [|c a IH]; [done|]. rewrite append_cons. simpl.
  by rewrite IH.
Qed.

Lemma toLowerCase_append (a b : string) :
  Js.toLowerCase (a +:+ b) = Js.toLowerCase a +:+ Js.toLowerCase b.
Proof.
  induction a as [|c a IH]; [done|]. rewrite append_cons. simpl.
  by rewrite IH, append_cons.
Qed.

(** ** The resolver, continued *)

Lemma matchEntries_none (entries : list (string * string))
    (specifier : string) :
  (forall k v, (k, v) ∈ entries -> keyMatches specifier k = false) ->
  matchEntries entries specifier = None.
Proof.
  induction entries as [|[k v] entries IH]; intros Hno; simpl; [done|].
  rewrite (Hno k v) by left. apply IH. intros k' v' Hin.
  apply (Hno k' v'). by right.
Qed.

Lemma matchEntries_first (pre post : list (string * string))
    (key target specifier : string) :
  (forall k v, (k, v) ∈ pre -> keyMatches specifier k = false) ->
  keyMatches specifier key = true ->
  matchEntries (pre ++ (key, target) :: post) specifier
  = Some (target +:+ Js.slice specifier (String.length key)).
Proof.
  induction pre as [|[k v] pre IH]; intros Hno Hm; simpl.
  - by rewrite Hm.
  - rewrite (Hno k v) by left. apply IH; [|done].
    intros k' v' Hin. apply (Hno k' v'). by right.
Qed.

Lemma matchScopes_none (urlString : string)
    (scopeEntries : list (string * list (string * string)))
    (specifier : string) :
  (forall scope entries,
      (scope, entries) ∈ scopeEntries ->
      Js.startsWith urlString scope = false
      \/ matchEntries entries specifier = None) ->
  matchScopes urlString scopeEntries specifier = None.
Proof.
  induction scopeEntries as [|[scope entries] rest IH]; intros Hno; simpl;
    [done|].
  assert (matchScopes urlString rest specifier = None) as Hrest.
  { apply IH. intros sc es Hin. apply Hno. by right. }
  destruct (Hno scope entries) as [-> | ->]; [by left | done |].
  by destruct (Js.startsWith urlString scope).
Qed.

Lemma matchScopes_first (urlString : string)
    (pre post : list (string * list (string * string)))
    (scope : string) (entries : list (string * string))
    (specifier r : string) :
  (forall sc es,
      (sc, es) ∈ pre ->
      Js.startsWith urlString sc = false
      \/ matchEntries es specifier = None) ->
  Js.startsWith urlString scope = true ->
  matchEntries entries specifier = Some r ->
  matchScopes urlString (pre ++ (scope, entries) :: post) specifier = Some r.
Proof.
  induction pre as [|[sc es] pre IH]; intros Hno Hs Hm; simpl.
  - by rewrite Hs, Hm.
  - assert (matchScopes urlString (pre ++ (scope, entries) :: post) specifier
            = Some r) as Hrest.
    { apply IH; [|done..]. intros sc' es' Hin. apply Hno. by right. }
    destruct (Hno sc es) as [-> | ->]; [by left | done |].
    by destruct (Js.startsWith urlString sc).
Qed.

(** X1: a specifier that no key of the direct table matches, and no key
    of a scope whose prefix the requesting module's URL starts with, is
    returned unchanged. *)
Theorem unmatched_specifier_passes_through
    (urlString : string) (importEntries : list (string * string))
    (scopeEntries : list (string * list (string * string)))
    (specifier : string) :
  (forall k v, (k, v) ∈ importEntries -> keyMatches specifier k = false) ->
  (forall scope entries k v,
      (scope, entries) ∈ scopeEntries ->
      Js.startsWith urlString scope = true ->
      (k, v) ∈ entries ->
      keyMatches specifier k = false) ->
  createOptimizedReplacer urlString importEntries scopeEntries specifier
  = specifier.
Proof.
  intros Hdirect Hscoped. unfold createOptimizedReplacer.
  rewrite matchEntries_none by done.
  rewrite matchScopes_none; [by destruct (Nat.ltb 0 _)|].
  intros scope entries Hin.
  destruct (Js.startsWith urlString scope) eqn:Hs; [right | by left].
  apply matchEntries_none. intros k v. by apply (Hscoped scope entries).
Qed.

Lemma unmatched_specifier_passes_through_witness :
  createOptimizedReplacer "file:///app/m.ts" [("@x", "A")]
    [("file:///app/", [("@y", "B")]); ("file:///other/", [("lodash", "C")])]
    "lodash"
  = "lodash".
Proof.
  apply unmatched_specifier_passes_through.
  - intros k v Hin. apply list_elem_of_singleton in Hin.
    by injection Hin as -> ->.
  - intros scope entries k v Hin Hs Hk.
    apply elem_of_cons in Hin as [Heq | Hin].
    + injection Heq as -> ->. apply list_elem_of_singleton in Hk.
      by injection Hk as -> ->.
    + apply list_elem_of_singleton in Hin. injection Hin as -> ->.
      discriminate Hs.
Defined.

(** X2: when the first key of the direct table that matches is [key], a
    specifier equal to [key] resolves to the target, and a specifier made
    of [key], a slash and a rest resolves to the target, the slash and the
    rest: what follows the key is carried over unchanged. *)
Theorem matched_key_keeps_suffix
    (urlString : string) (pre post : list (string * string))
    (scopeEntries : list (string * list (string * string)))
    (key target suffix : string) :
  (forall k v, (k, v) ∈ pre -> keyMatches (key +:+ suffix) k = false) ->
  suffix = EmptyString \/ Js.startsWith suffix "/" = true ->
  createOptimizedReplacer urlString (pre ++ (key, target) :: post)
    scopeEntries (key +:+ suffix)
  = target +:+ suffix.
Proof.
  intros Hpre Hsuffix. unfold createOptimizedReplacer.
  rewrite matchEntries_first; [by rewrite slice_append | done |].
  unfold keyMatches. destruct Hsuffix as [-> | Hs].
  - rewrite append_empty_r, String.eqb_refl. done.
  - apply startsWith_inv in Hs. rewrite Hs, <- append_assoc.
    rewrite startsWith_append. apply orb_true_r.
Qed.

Lemma matched_key_keeps_suffix_witness :
  createOptimizedReplacer "file:///app/m.ts"
    ([("lodash", "L")] ++ ("@std", "https://deno.land/std") :: [("@std/fs", "F")])
    [] ("@std" +:+ "/fs/walk.ts")
  = "https://deno.land/std" +:+ "/fs/walk.ts".
Proof.
  apply matched_key_keeps_suffix.
  - intros k v Hin. apply list_elem_of_singleton in Hin.
    by injection Hin as -> ->.
  - right. reflexivity.
Defined.

(** X3: when no direct key matches, the scopes are tried in the order of
    the table, and the first scope that applies to the requesting module
    and has a matching key decides, whether or not a later scope has a
    longer prefix; a scope that does not apply is skipped. *)
Theorem first_applicable_scope_decides
    (urlString : string) (importEntries : list (string * string))
    (pre post : list (string * list (string * string)))
    (scope : string) (entries : list (string * string))
    (specifier r : string) :
  matchEntries importEntries specifier = None ->
  (forall sc es,
      (sc, es) ∈ pre ->
      Js.startsWith urlString sc = false
      \/ matchEntries es specifier = None) ->
  Js.startsWith urlString scope = true ->
  matchEntries entries specifier = Some r ->
  createOptimizedReplacer urlString importEntries
    (pre ++ (scope, entries) :: post) specifier
  = r.
Proof.
  intros Hdirect Hpre Hs Hm. unfold createOptimizedReplacer.
  rewrite Hdirect, (matchScopes_first _ _ _ _ _ _ r) by done.
  rewrite length_app. simpl.
  by destruct (Nat.ltb 0 _) eqn:E; [|apply Nat.ltb_ge in E; lia].
Qed.

Lemma first_applicable_scope_decides_witness :
  createOptimizedReplacer "file:///app/deep/m.ts" []
    ([("file:///other/", [("@x", "O")])]
     ++ ("file:///app/", [("@x", "shallow")])
        :: [("file:///app/deep/", [("@x", "deep")])])
    "@x"
  = "shallow".
Proof.
  apply (first_applicable_scope_decides _ _ _ _ _ _ _ "shallow").
  - reflexivity.
  - intros sc es Hin. apply list_elem_of_singleton in Hin.
    injection Hin as -> ->. by left.
  - reflexivity.
  - reflexivity.
Defined.

(** ** Which specifiers the rewriting passes touch *)

Lemma isHttpUrl_remote (s : string) :
  isHttpUrl s = true -> isRemoteSpecifier s = true.
Proof.
  unfold isHttpUrl, isRemoteSpecifier. intros Hs.
  apply orb_true_iff in Hs as [Hs | Hs]; apply startsWith_inv in Hs;
    rewrite Hs, toLowerCase_append.
  - rewrite (startsWith_trans _ (Js.toLowerCase "http://") "http:");
      [done | apply startsWith_append | done].
  - rewrite (startsWith_trans _ (Js.toLowerCase "https://") "https:");
      [by rewrite orb_true_r | apply startsWith_append | done].
Qed.

Lemma isJsr_registry (s : string) :
  isJsr s = true -> isJsrOrNpmSpecifier s = true.
Proof.
  unfold isJsr, isJsrOrNpmSpecifier. intros Hs.
  apply startsWith_inv in Hs. rewrite Hs, toLowerCase_append.
  by rewrite (startsWith_trans _ (Js.toLowerCase "jsr:") "jsr:");
    [| apply startsWith_append |].
Qed.

Lemma isNpm_registry (s : string) :
  isNpm s = true -> isJsrOrNpmSpecifier s = true.
Proof.
  unfold isNpm, isJsrOrNpmSpecifier. intros Hs.
  apply startsWith_inv in Hs. rewrite Hs, toLowerCase_append.
  rewrite (startsWith_trans _ (Js.toLowerCase "npm:") "npm:");
    [by rewrite orb_true_r | apply startsWith_append | done].
Qed.

Lemma get_set_inv {V : Type} (o : list (string * V)) (k k' : string)
    (v v' : V) :
  Obj.get (Obj.set o k v) k' = Some v' ->
  (k' = k /\ v' = v) \/ Obj.get o k' = Some v'.
Proof.
  destruct (decide (k = k')) as [->|Hne].
  - rewrite get_set_eq. intros [= ->]. by left.
  - rewrite get_set_ne by done. by right.
Qed.

(** What [collectReplacements] adds to its two accumulators. *)
Lemma collectReplacements_adds (H : Host) (replacer : string -> string)
    (dependencies : list string) :
  forall sr calls sr' calls',
    collectReplacements H dependencies replacer sr calls = Some (sr', calls') ->
    (forall s, s ∈ calls' ->
       s ∈ calls
       \/ (isRemoteSpecifier s = false /\ isJsrOrNpmSpecifier s = false))
    /\ (forall s v, Obj.get sr' s = Some v ->
          Obj.get sr s = Some v
          \/ (isRemoteSpecifier s = false
              /\ (isJsrOrNpmSpecifier s = true ->
                  resolveRegistry H s = Some v)
              /\ (isJsrOrNpmSpecifier s = false ->
                  v = replacer s /\ v <> s))).
Proof.
  induction dependencies as [|d rest IH]; intros sr calls sr' calls' Hrun.
  { simpl in Hrun. simplify_eq. split; intros; by left. }
  simpl in Hrun.
  destruct (isRemoteSpecifier d) eqn:Hremote; [by apply IH|].
  destruct (isJsrOrNpmSpecifier d) eqn:Hreg.
  - destruct (resolveRegistry H d) as [n|] eqn:Hres; [|done].
    apply IH in Hrun as [Hcalls Hsr]. split; [done|].
    intros s v Hget. destruct (Hsr s v Hget) as [Hold | ?]; [|by right].
    apply get_set_inv in Hold as [[-> ->] | ?]; [|by left].
    right. split; [done|]. split; [done | congruence].
  - assert (forall s, s ∈ calls ++ [d] ->
              s ∈ calls
              \/ (isRemoteSpecifier s = false
                  /\ isJsrOrNpmSpecifier s = false)) as Hd.
    { intros s Hin. apply elem_of_app in Hin as [? | Hin]; [by left|].
      apply list_elem_of_singleton in Hin. subst. by right. }
    destruct (String.eqb d (replacer d)) eqn:Heq;
      apply IH in Hrun as [Hcalls Hsr].
    + split; [|done]. intros s Hin.
      destruct (Hcalls s Hin) as [? | ?]; [by apply Hd | by right].
    + split.
      { intros s Hin.
        destruct (Hcalls s Hin) as [? | ?]; [by apply Hd | by right]. }
      intros s v Hget. destruct (Hsr s v Hget) as [Hold | ?]; [|by right].
      apply get_set_inv in Hold as [[-> ->] | ?]; [|by left].
      right. split; [done|]. split; [congruence|]. intros _.
      split; [done|]. apply String.eqb_neq in Heq. congruence.
Qed.

(** X4: a rewriting pass never hands a remote specifier ([http:],
    [https:], [data:], in any case of letters) or a registry specifier
    ([jsr:], [npm:]) to its replacer, and never records a replacement for
    a remote one; a registry specifier is replaced by what the Deno
    loader resolves it to, whatever the replacer says, and any other
    specifier by what the replacer returns, when that differs from it.
    So the specifiers for which [#isHttpUrl], [#isJsr] or [#isNpm] hold
    never reach the replacer of the second pass: the cache location the
    engine recorded for such a dependency is not put into the text. *)
Theorem replacer_never_sees_remote_nor_registry
    (H : Host) (specifier sourceCode : string) (replacer : string -> string)
    (rewritten : string) (calls : list string) :
  replaceImports H specifier sourceCode replacer = Some (rewritten, calls) ->
  (forall s, s ∈ calls ->
     isRemoteSpecifier s = false /\ isJsrOrNpmSpecifier s = false
     /\ isHttpUrl s = false /\ isJsr s = false /\ isNpm s = false)
  /\ exists specifierReplacements,
      (rewritten = sourceCode
       \/ rewritten = rewriteImports H sourceCode specifierReplacements)
      /\ forall s v,
          Obj.get specifierReplacements s = Some v ->
          isRemoteSpecifier s = false /\ isHttpUrl s = false
          /\ (isJsrOrNpmSpecifier s = true -> resolveRegistry H s = Some v)
          /\ (isJsrOrNpmSpecifier s = false -> v = replacer s /\ v <> s).
Proof.
  unfold replaceImports. intros Hrun.
  assert (forall s, isRemoteSpecifier s = false -> isHttpUrl s = false)
    as Hhttp.
  { intros s Hs. destruct (isHttpUrl s) eqn:E; [|done].
    apply isHttpUrl_remote in E. congruence. }
  assert (forall s, isJsrOrNpmSpecifier s = false ->
                    isJsr s = false /\ isNpm s = false) as Hreg.
  { intros s Hs. split.
    - destruct (isJsr s) eqn:E; [|done]. apply isJsr_registry in E.
      congruence.
    - destruct (isNpm s) eqn:E; [|done]. apply isNpm_registry in E.
      congruence. }
  destruct (graphDependencies H specifier sourceCode) as [deps|].
  - destruct (collectReplacements H deps replacer [] [])
      as [[sr calls']|] eqn:Hc; [|done].
    simplify_eq.
    apply collectReplacements_adds in Hc as [Hcalls Hsr]. split.
    + intros s Hin. destruct (Hcalls s Hin) as [Hnil | [? ?]].
      { by apply elem_of_nil in Hnil. }
      split; [done|]. split; [done|]. split; [by apply Hhttp|].
      by apply Hreg.
    + exists sr. split; [by right|]. intros s v Hget.
      destruct (Hsr s v Hget) as [Hnil | (? & ? & ?)]; [done|].
      split; [done|]. split; [by apply Hhttp | done].
  - simplify_eq. split.
    + intros s Hin. by apply elem_of_nil in Hin.
    + exists []. split; [by left | done].
Qed.

Lemma replacer_never_sees_remote_nor_registry_witness :
  (forall s,
     s ∈ ["./a.ts"; "@x/b.ts"] ->
     isRemoteSpecifier s = false /\ isJsrOrNpmSpecifier s = false
     /\ isHttpUrl s = false /\ isJsr s = false /\ isNpm s = false)
  /\ exists specifierReplacements,
      ("import ./a.ts;import https://h/r.ts;import C;import jsr:@s/p"
       = "import ./a.ts;import https://h/r.ts;import @x/b.ts;import jsr:@s/p"
       \/ "import ./a.ts;import https://h/r.ts;import C;import jsr:@s/p"
          = rewriteImports Fixture.host
              "import ./a.ts;import https://h/r.ts;import @x/b.ts;import jsr:@s/p"
              specifierReplacements)
      /\ forall s v,
          Obj.get specifierReplacements s = Some v ->
          isRemoteSpecifier s = false /\ isHttpUrl s = false
          /\ (isJsrOrNpmSpecifier s = true ->
              resolveRegistry Fixture.host s = Some v)
          /\ (isJsrOrNpmSpecifier s = false ->
              v = cachedOr
                    {[ "./a.ts" := "./a.ts"; "https://h/r.ts" := "R";
                       "@x/b.ts" := "C"; "jsr:@s/p" := "J" ]} s
              /\ v <> s).
Proof.
  apply (replacer_never_sees_remote_nor_registry Fixture.host
           "file:///app/m.ts").
  vm_compute. reflexivity.
Defined.

(** ** The edges of a module *)

Lemma has_set {V : Type} (o : list (string * V)) (k k' : string) (v : V) :
  Obj.has (Obj.set o k v) k' = true <-> k' = k \/ Obj.has o k' = true.
Proof.
  unfold Obj.has. destruct (decide (k = k')) as [->|Hne].
  - rewrite get_set_eq. naive_solver.
  - rewrite get_set_ne by done. naive_solver.
Qed.

Lemma collectedSpecifiers_has (replacer : string -> string)
    (calls : list string) :
  forall m0 s,
    Obj.has
      (fold_left (fun m specifier => Obj.set m specifier (replacer specifier))
         calls m0) s = true
    <-> s ∈ calls \/ Obj.has m0 s = true.
Proof.
  induction calls as [|c calls IH]; intros m0 s; simpl.
  - split; [by right | intros [Hin | ?]; [by apply elem_of_nil in Hin | done]].
  - rewrite IH, has_set, elem_of_cons. naive_solver.
Qed.

Lemma collectedLocals_sub (calls : list string) :
  forall l0 s,
    s ∈ fold_left
          (fun l specifier =>
             if isRelativeOrFileUrl specifier then setAdd l specifier else l)
          calls l0 ->
    s ∈ calls \/ s ∈ l0.
Proof.
  induction calls as [|c calls IH]; intros l0 s Hin; simpl in Hin.
  - by right.
  - apply IH in Hin as [? | Hin]; [left; by right|].
    destruct (isRelativeOrFileUrl c); [|by right].
    unfold setAdd in Hin. destruct (existsb _ l0); [by right|].
    apply elem_of_app in Hin as [? | Hin]; [by right|].
    apply list_elem_of_singleton in Hin. subst. left. by left.
Qed.

(** X5: with the two collections the first pass leaves, the second loop
    of [#processDependenciesParallel] ("local specifiers that weren't
    transformed by import map") pushes nothing, because every local
    specifier is also a key of [originalToTransformedSpecifiers].  The
    edges are the resolved specifiers that are relative, file, http(s),
    [jsr:] or [npm:]; a specifier the import map leaves or makes bare is
    no edge. *)
Theorem second_loop_pushes_nothing
    (replacer : string -> string) (calls : list string) :
  dependencyEdges (collectedSpecifiers replacer calls) (collectedLocals calls)
  = filter (fun s => Is_true (shouldProcess s))
      (map snd (collectedSpecifiers replacer calls))
  /\ forall e,
      e ∈ dependencyEdges (collectedSpecifiers replacer calls)
            (collectedLocals calls) ->
      shouldProcess e = true
      /\ exists written,
          written ∈ calls /\ e = replacer written.
Proof.
  assert (filter
            (fun s =>
               Is_true (negb (Obj.has (collectedSpecifiers replacer calls) s)))
            (collectedLocals calls) = []) as Hnone.
  { apply elem_of_nil_inv. intros s Hin.
    apply list_elem_of_filter in Hin as [Hp Hin].
    apply collectedLocals_sub in Hin as [Hin | Hin];
      [|by apply elem_of_nil in Hin].
    unfold collectedSpecifiers in Hp.
    assert (Obj.has
              (fold_left
                 (fun m specifier => Obj.set m specifier (replacer specifier))
                 calls []) s = true) as Hhas
      by (apply collectedSpecifiers_has; by left).
    by rewrite Hhas in Hp. }
  assert (dependencyEdges (collectedSpecifiers replacer calls)
            (collectedLocals calls)
          = filter (fun s => Is_true (shouldProcess s))
              (map snd (collectedSpecifiers replacer calls))) as Hedges.
  { unfold dependencyEdges. by rewrite Hnone, app_nil_r. }
  split; [done|]. intros e. rewrite Hedges.
  rewrite list_elem_of_filter, list_elem_of_In, in_map_iff.
  intros [Hp ([k v] & <- & Hin)]. apply list_elem_of_In in Hin.
  split; [by apply Is_true_eq_true|].
  simpl. clear Hp Hnone Hedges. unfold collectedSpecifiers in Hin.
  assert (forall m0,
             (k, v) ∈ fold_left
                        (fun m specifier =>
                           Obj.set m specifier (replacer specifier))
                        calls m0 ->
             (k, v) ∈ m0 \/ (k ∈ calls /\ v = replacer k)) as Hgen.
  { clear Hin. induction calls as [|c calls IH]; intros m0 Hin; simpl in Hin;
      [by left|].
    apply IH in Hin as [Hin | [? ?]]; [|right; split; [by right | done]].
    assert (forall o, (k, v) ∈ Obj.set o c (replacer c) ->
                      (k, v) ∈ o \/ (k = c /\ v = replacer c)) as Hset.
    { clear. induction o as [|[k0 v0] o IHo]; simpl; intros Hin.
      - apply list_elem_of_singleton in Hin. injection Hin as -> ->.
        by right.
      - destruct (String.eqb k0 c) eqn:E.
        + apply String.eqb_eq in E. subst k0.
          apply elem_of_cons in Hin as [Heq | Hin].
          * injection Heq as -> ->. by right.
          * left. by right.
        + apply elem_of_cons in Hin as [Heq | Hin].
          * left. rewrite Heq. by left.
          * apply IHo in Hin as [? | ?]; [left; by right | by right]. }
    apply Hset in Hin as [? | [-> ->]]; [by left|].
    right. split; [by left | done]. }
  apply Hgen in Hin as [Hin | [? ->]]; [by apply elem_of_nil in Hin|].
  by exists k.
Qed.

(** ** The engine, continued *)

(** X6: whatever a call of the engine does and however it ends, records
    are only added: a record that exists keeps its location, a new record
    is for a location of the platform, the memory cache and the settings
    are untouched, and reads and warnings are only appended. *)
Theorem records_are_never_changed
    (H : Host) (fuel : nat) (moduleUrl : string) (im : option ImportMap)
    (st : TsImporter) (r : Settled string) (st' : TsImporter) :
  transformModule H fuel moduleUrl im st = (r, st') ->
  (forall u c,
      transformedModules st !! u = Some c ->
      transformedModules st' !! u = Some c)
  /\ (forall u,
        u ∈ dom (transformedModules st') ->
        u ∈ dom (transformedModules st) \/ u ∈ locations H)
  /\ cache st' = cache st
  /\ settings st' = settings st
  /\ (exists l, reads st' = l ++ reads st)
  /\ (exists l, warnings st' = l ++ warnings st).
Proof.
  intros Hrun. apply (transformModule_framed H) in Hrun as [Hg _].
  destruct Hg as [HS HC HT HL HR HW].
  split; [|done]. intros u c Hu. by eapply lookup_weaken.
Qed.

Lemma records_are_never_changed_witness :
  (forall u c,
      transformedModules Fixture.afterCycle !! u = Some c ->
      transformedModules Fixture.afterCycleAndMain !! u = Some c)
  /\ (forall u,
        u ∈ dom (transformedModules Fixture.afterCycleAndMain) ->
        u ∈ dom (transformedModules Fixture.afterCycle)
        \/ u ∈ locations Fixture.host)
  /\ cache Fixture.afterCycleAndMain = cache Fixture.afterCycle
  /\ settings Fixture.afterCycleAndMain = settings Fixture.afterCycle
  /\ (exists l, reads Fixture.afterCycleAndMain = l ++ reads Fixture.afterCycle)
  /\ (exists l, warnings Fixture.afterCycleAndMain = l ++ warnings Fixture.afterCycle).
Proof.
  apply (records_are_never_changed Fixture.host 10 Fixture.mainUrl
           (Some Fixture.tableApp) Fixture.afterCycle
           (Resolved Fixture.mainCache)).
  vm_compute. reflexivity.
Defined.

Lemma failed_read_fields (H : Host) (moduleUrl : string) (st : TsImporter) :
  let st' :=
    clearInFlight moduleUrl
      (set_reads (cons moduleUrl) (markInFlight H moduleUrl st)) in
  transformedModules st' = transformedModules st
  /\ disk st' = disk st
  /\ reads st' = moduleUrl :: reads st
  /\ (moduleUrl ∉ transformationPromises st')
  /\ (moduleUrl ∉ processingModules st ->
      processingModules st' = processingModules st).
Proof.
  destruct (afterCacheClearing_fields H moduleUrl st)
    as (_ & _ & HT & HP & _ & HD & HR & _).
  unfold markInFlight, clearInFlight, set_reads, set_transformationPromises,
    set_processingModules.
  cbn [transformedModules disk reads transformationPromises
         processingModules].
  rewrite HT, HD, HR, HP. repeat split; try done; set_solver.
Qed.

(** X7: a module that cannot be read makes the call reject with the
    error of the read.  Nothing is kept of the attempt but the read: no
    record, no cache file, no marker; so the failure is not remembered,
    and the next request for the module reads it again. *)
Theorem unreadable_module_is_not_remembered
    (H : Host) (fuel fuel2 : nat) (moduleUrl : string)
    (im im2 : option ImportMap) (st : TsImporter) (message : string) :
  transformedModules st !! moduleUrl = None ->
  moduleUrl ∉ processingModules st ->
  (readModuleContent H moduleUrl st).1 = Rejected message ->
  exists st',
    transformModule H (S fuel) moduleUrl im st = (Rejected message, st')
    /\ transformedModules st' = transformedModules st
    /\ disk st' = disk st
    /\ processingModules st' = processingModules st
    /\ (moduleUrl ∉ transformationPromises st')
    /\ reads st' = moduleUrl :: reads st
    /\ exists st'',
        transformModule H (S fuel2) moduleUrl im2 st'
        = (Rejected message, st'')
        /\ reads st'' = moduleUrl :: moduleUrl :: reads st.
Proof.
  intros Hnone Hnotin Hread.
  assert (forall n i s,
             transformedModules s !! moduleUrl = None ->
             moduleUrl ∉ processingModules s ->
             transformModule H (S n) moduleUrl i s
             = (Rejected message,
                clearInFlight moduleUrl
                  (set_reads (cons moduleUrl) (markInFlight H moduleUrl s))))
    as Hstep.
  { intros n i s Hn Hni.
    rewrite transformModule_fresh by done. unfold transformation.
    by rewrite (readModuleContent_result H moduleUrl _ st), Hread. }
  destruct (failed_read_fields H moduleUrl st) as (HT & HD & HR & HQ & HP).
  set (st' := clearInFlight moduleUrl
                (set_reads (cons moduleUrl) (markInFlight H moduleUrl st)))
    in *.
  specialize (HP Hnotin).
  exists st'. split; [by apply Hstep|]. split; [done|]. split; [done|].
  split; [done|]. split; [done|]. split; [done|].
  destruct (failed_read_fields H moduleUrl st') as (_ & _ & HR' & _).
  eexists. split.
  - apply Hstep; [by rewrite HT | by rewrite HP].
  - by rewrite HR', HR.
Qed.

Lemma unreadable_module_is_not_remembered_witness :
  exists st',
    transformModule Fixture.host 1 "file:///app/missing.ts" None Fixture.fresh
    = (Rejected "No such file or directory", st')
    /\ transformedModules st' = transformedModules Fixture.fresh
    /\ disk st' = disk Fixture.fresh
    /\ processingModules st' = processingModules Fixture.fresh
    /\ ("file:///app/missing.ts" ∉ transformationPromises st')
    /\ reads st' = "file:///app/missing.ts" :: reads Fixture.fresh
    /\ exists st'',
        transformModule Fixture.host 1 "file:///app/missing.ts"
          (Some Fixture.tableApp) st'
        = (Rejected "No such file or directory", st'')
        /\ reads st''
           = "file:///app/missing.ts" :: "file:///app/missing.ts"
             :: reads Fixture.fresh.
Proof.
  apply unreadable_module_is_not_remembered.
  - vm_compute. reflexivity.
  - intros Hu. vm_compute in Hu. discriminate Hu.
  - vm_compute. reflexivity.
Defined.

(** X8: a module whose stripped text has no import and no reference to
    [import.meta] is cached as it is: the call reads it once, writes the
    stripped text, without banner, at the location derived from the URL,
    that text and the table, and records that location. *)
Theorem leaf_module_is_cached_verbatim
    (H : Host) (fuel : nat) (moduleUrl : string) (im : option ImportMap)
    (st : TsImporter) (originalCode code cacheUrl : string) :
  transformedModules st !! moduleUrl = None ->
  moduleUrl ∉ processingModules st ->
  (readModuleContent H moduleUrl st).1 = Resolved originalCode ->
  transpileTypeScript H originalCode (tsTranspileOptions (settings st))
  = Some code ->
  hasImports H code = false ->
  hasImportMetaUrl H code = false ->
  getCacheUrl H st moduleUrl code im = Some cacheUrl ->
  writable H cacheUrl = true ->
  exists st',
    transformModule H (S fuel) moduleUrl im st = (Resolved cacheUrl, st')
    /\ disk st' = <[cacheUrl := code]> (disk st)
    /\ transformedModules st'
       = <[moduleUrl := cacheUrl]> (transformedModules st)
    /\ reads st' = moduleUrl :: reads st
    /\ warnings st' = warnings st
    /\ processingModules st' = processingModules st.
Proof.
  intros Hnone Hnotin Hread Hstrip Himports Hmeta Hcache Hwrite.
  rewrite transformModule_fresh by done.
  destruct (markInFlight_fields H moduleUrl st)
    as (HS & HT & HR & HW & HD).
  destruct (afterCacheClearing_fields H moduleUrl st)
    as (_ & _ & _ & HP & _).
  set (st0 := markInFlight H moduleUrl st) in *.
  assert (transformation H (transformModule H fuel) moduleUrl im st0
          = (Resolved cacheUrl,
             set_transformedModules (insert moduleUrl cacheUrl)
               (set_disk (insert cacheUrl code)
                  (set_reads (cons moduleUrl) st0)))) as ->.
  { unfold transformation.
    rewrite (readModuleContent_result H moduleUrl st0 st), Hread.
    cbv beta iota.
    change (settings (set_reads (cons moduleUrl) st0)) with (settings st0).
    rewrite HS, Hstrip, Himports, Hmeta. cbv beta iota delta [negb andb].
    unfold cacheModule. rewrite Hmeta, String.eqb_refl.
    cbv beta iota delta [negb].
    assert (getCacheUrl H (set_reads (cons moduleUrl) st0) moduleUrl code im
            = Some cacheUrl) as ->.
    { unfold getCacheUrl in *.
      change (settings (set_reads (cons moduleUrl) st0))
        with (settings st0).
      by rewrite HS. }
    unfold writeToCache. by rewrite Hwrite. }
  eexists. split; [done|].
  unfold clearInFlight, set_transformedModules, set_disk, set_reads,
    set_transformationPromises, set_processingModules.
  cbn [transformedModules disk reads warnings processingModules
         transformationPromises].
  rewrite HD, HT, HR, HW.
  repeat split; try done.
  subst st0. unfold markInFlight, set_transformationPromises,
    set_processingModules.
  cbn [processingModules]. rewrite HP. set_solver.
Qed.

Lemma leaf_module_is_cached_verbatim_witness :
  exists st',
    transformModule Fixture.host 1 "file:///app/leaf.ts" None Fixture.fresh
    = (Resolved "file:///cache/|!export leaf!file:///app/leaf.ts", st')
    /\ disk st'
       = <["file:///cache/|!export leaf!file:///app/leaf.ts" := "export leaf"]>
           (disk Fixture.fresh)
    /\ transformedModules st'
       = <["file:///app/leaf.ts"
           := "file:///cache/|!export leaf!file:///app/leaf.ts"]>
           (transformedModules Fixture.fresh)
    /\ reads st' = "file:///app/leaf.ts" :: reads Fixture.fresh
    /\ warnings st' = warnings Fixture.fresh
    /\ processingModules st' = processingModules Fixture.fresh.
Proof.
  apply (leaf_module_is_cached_verbatim Fixture.host 0 "file:///app/leaf.ts"
           None Fixture.fresh "export leaf" "export leaf").
  - vm_compute. reflexivity.
  - intros Hu. vm_compute in Hu. discriminate Hu.
  - vm_compute. reflexivity.
  - vm_compute. reflexivity.
  - vm_compute. reflexivity.
  - vm_compute. reflexivity.
  - vm_compute. reflexivity.
  - reflexivity.
Defined.

(** The run of a module with imports, up to the write of its cache file. *)
Lemma slow_path_run
    (H : Host) (fuel : nat) (moduleUrl : string) (im : option ImportMap)
    (st : TsImporter) (originalCode transpiledCode replacedCode : string)
    (calls : list string) (cacheUrl : string) :
  let replacer := applyImportMapToSpecifier moduleUrl im in
  let transformedCode := replaceImportMeta H replacedCode moduleUrl in
  let edges :=
    dependencyEdges (collectedSpecifiers replacer calls)
      (collectedLocals calls) in
  registeredInFlight st ->
  pending H st < S fuel ->
  transformedModules st !! moduleUrl = None ->
  (readModuleContent H moduleUrl st).1 = Resolved originalCode ->
  transpileTypeScript H originalCode (tsTranspileOptions (settings st))
  = Some transpiledCode ->
  negb (hasImports H transpiledCode)
  && negb (hasImportMetaUrl H transpiledCode) = false ->
  replaceImports H moduleUrl transpiledCode replacer
  = Some (replacedCode, calls) ->
  getCacheUrl H st moduleUrl transformedCode im = Some cacheUrl ->
  (forall e, e ∈ edges -> is_Some (fallbackUrl H e moduleUrl)) ->
  exists m st3,
    transformation H (transformModule H fuel) moduleUrl im
      (markInFlight H moduleUrl st)
    = match (if Nat.ltb 0 (size m)
             then option_map fst
                    (replaceImports H moduleUrl transformedCode (cachedOr m))
             else Some transformedCode) with
      | None => (Rejected "Unable to resolve", st3)
      | Some finalCode =>
          match writeToCache H cacheUrl
                  (createOriginalUrlComment H moduleUrl +:+ finalCode) st3
          with
          | (Resolved _, st4) => (Resolved cacheUrl, st4)
          | (Rejected e, st4) => (Rejected e, st4)
          | (Awaits u, st4) => (Awaits u, st4)
          | (OutOfFuel, st4) => (OutOfFuel, st4)
          end
      end
    /\ transformedModules st3 !! moduleUrl = Some cacheUrl.
Proof.
  intros replacer transformedCode edges Hreg Hpend Hnone Hread Hstrip Hslow
    Hfirst Hcache Hres.
  assert (moduleUrl ∉ processingModules st) as Hnotin.
  { intros Hin. apply Hreg in Hin. apply elem_of_dom in Hin as [? ?].
    congruence. }
  destruct (markInFlight_fields H moduleUrl st) as (HS & HT & _).
  destruct (afterCacheClearing_fields H moduleUrl st)
    as (_ & _ & HT0 & HP0 & _).
  set (st0 := markInFlight H moduleUrl st) in *.
  unfold transformation.
  rewrite (readModuleContent_result H moduleUrl st0 st), Hread.
  assert (moduleUrl ∈ locations H) as Hloc.
  { destruct (readModuleContent H moduleUrl st) as [rd st1] eqn:Hrd.
    apply readModuleContent_inv in Hrd as (_ & Hloc & _).
    by apply (Hloc originalCode). }
  change (settings (set_reads (cons moduleUrl) st0)) with (settings st0).
  rewrite HS, Hstrip, Hslow.
  fold replacer. rewrite Hfirst. fold transformedCode.
  assert (getCacheUrl H (set_reads (cons moduleUrl) st0) moduleUrl
            transformedCode im = Some cacheUrl) as ->.
  { unfold getCacheUrl in *.
    change (settings (set_reads (cons moduleUrl) st0)) with (settings st0).
    by rewrite HS. }
  unfold processDependenciesParallel. fold edges.
  set (st2 := set_transformedModules (insert moduleUrl cacheUrl)
                (set_reads (cons moduleUrl) st0)).
  destruct (settleAll_isolated H fuel edges moduleUrl im Hres ∅ st2)
    as (m & st3 & -> & Hg & _).
  { unfold registeredInFlight in *. subst st2 st0. simpl.
    rewrite dom_insert_L, HP0, HT0. set_solver. }
  { pose proof (pending_register H st moduleUrl cacheUrl Hnone Hloc) as Hdec.
    assert (pending H st2
            = pending H (set_transformedModules
                           (insert moduleUrl cacheUrl) st)) as ->; [|lia].
    unfold pending, pendingLocations. subst st2.
    cbn [transformedModules set_transformedModules set_reads].
    by rewrite HT. }
  exists m, st3. split; [done|].
  eapply lookup_weaken; [|apply (grows_transformed _ _ _ Hg)].
  subst st2. simpl. apply lookup_insert_eq.
Qed.

(** X9: the record of a module with imports is registered before its
    cache file is written and is not taken back.  If the final write
    fails, the call rejects, but the module keeps the record: every
    later request for it, under any table, resolves to that location
    without another attempt. *)
Theorem failed_write_leaves_the_record
    (H : Host) (fuel : nat) (moduleUrl : string) (im : option ImportMap)
    (st : TsImporter) (originalCode transpiledCode replacedCode : string)
    (calls : list string) (cacheUrl : string) :
  let replacer := applyImportMapToSpecifier moduleUrl im in
  let transformedCode := replaceImportMeta H replacedCode moduleUrl in
  let edges :=
    dependencyEdges (collectedSpecifiers replacer calls)
      (collectedLocals calls) in
  registeredInFlight st ->
  pending H st < S fuel ->
  transformedModules st !! moduleUrl = None ->
  (readModuleContent H moduleUrl st).1 = Resolved originalCode ->
  transpileTypeScript H originalCode (tsTranspileOptions (settings st))
  = Some transpiledCode ->
  negb (hasImports H transpiledCode)
  && negb (hasImportMetaUrl H transpiledCode) = false ->
  replaceImports H moduleUrl transpiledCode replacer
  = Some (replacedCode, calls) ->
  getCacheUrl H st moduleUrl transformedCode im = Some cacheUrl ->
  (forall e, e ∈ edges -> is_Some (fallbackUrl H e moduleUrl)) ->
  (forall m,
      is_Some (replaceImports H moduleUrl transformedCode (cachedOr m))) ->
  writable H cacheUrl = false ->
  exists message st',
    transformModule H (S fuel) moduleUrl im st = (Rejected message, st')
    /\ transformedModules st' !! moduleUrl = Some cacheUrl
    /\ forall n im2,
        (transformModule H (S n) moduleUrl im2 st').1 = Resolved cacheUrl.
Proof.
  intros replacer transformedCode edges Hreg Hpend Hnone Hread Hstrip Hslow
    Hfirst Hcache Hres Hsecond Hwrite.
  assert (moduleUrl ∉ processingModules st) as Hnotin.
  { intros Hin. apply Hreg in Hin. apply elem_of_dom in Hin as [? ?].
    congruence. }
  destruct (slow_path_run H fuel moduleUrl im st originalCode transpiledCode
              replacedCode calls cacheUrl Hreg Hpend Hnone Hread Hstrip Hslow
              Hfirst Hcache Hres) as (m & st3 & Hrun & Hrec).
  fold transformedCode in Hrun.
  destruct (Hsecond m) as [[finalCode2 calls2] Hsnd].
  assert ((if Nat.ltb 0 (size m)
           then option_map fst
                  (replaceImports H moduleUrl transformedCode (cachedOr m))
           else Some transformedCode)
          = Some (if Nat.ltb 0 (size m) then finalCode2
                  else transformedCode)) as Hfinal.
  { rewrite Hsnd. by destruct (Nat.ltb 0 (size m)). }
  rewrite Hfinal in Hrun. unfold writeToCache in Hrun.
  rewrite Hwrite in Hrun.
  exists "Permission denied", (clearInFlight moduleUrl st3).
  split; [by rewrite transformModule_fresh, Hrun by done|].
  split; [done|]. intros n im2.
  by rewrite (transformModule_memo H n moduleUrl im2 _ cacheUrl).
Qed.

Lemma failed_write_leaves_the_record_witness :
  exists message st',
    transformModule Fixture.hostDenyingMain 10 Fixture.mainUrl
      (Some Fixture.tableApp) Fixture.fresh
    = (Rejected message, st')
    /\ transformedModules st' !! Fixture.mainUrl = Some Fixture.mainCache
    /\ forall n im2,
        (transformModule Fixture.hostDenyingMain (S n) Fixture.mainUrl im2
           st').1
        = Resolved Fixture.mainCache.
Proof.
  apply (failed_write_leaves_the_record Fixture.hostDenyingMain 9
           Fixture.mainUrl (Some Fixture.tableApp) Fixture.fresh
           Fixture.mainCode Fixture.mainCode Fixture.mainReplaced
           Fixture.mainCalls Fixture.mainCache).
  - intros u Hu. vm_compute in Hu. discriminate Hu.
  - vm_compute. lia.
  - vm_compute. reflexivity.
  - vm_compute. reflexivity.
  - vm_compute. reflexivity.
  - vm_compute. reflexivity.
  - vm_compute. reflexivity.
  - vm_compute. reflexivity.
  - intros e He. unfold fallbackUrl.
    destruct (isRelativeOrFileUrl e) eqn:Hrel; [|by eexists].
    vm_compute in He.
    repeat (apply elem_of_cons in He as [-> | He]; [by eexists|]).
    by apply elem_of_nil in He.
  - intros m. apply replaceImports_total. intros s. by eexists.
  - vm_compute. reflexivity.
Defined.

(** On the small platform: after the failed write the record of
    [main.ts] points to a location at which the cache directory has no
    file. *)
Example stale_record_run :
  let run := transformModule Fixture.hostDenyingMain 10 Fixture.mainUrl
               (Some Fixture.tableApp) Fixture.fresh in
  run.1 = Rejected "Permission denied"
  /\ transformedModules run.2 !! Fixture.mainUrl = Some Fixture.mainCache
  /\ disk run.2 !! Fixture.mainCache = None.
Proof. vm_compute. repeat split. Qed.

(** ** The public method, continued *)

(** The state [import] hands to the engine. *)
Lemma import_clearing_fields (url : string) (st : TsImporter) :
  let st0 := if clearDenoCache (settings st)
             then clearDenoCacheForUrl url st else st in
  settings st0 = settings st
  /\ cache st0 = cache st
  /\ transformedModules st0 = transformedModules st
  /\ processingModules st0 = processingModules st
  /\ disk st0 = disk st
  /\ reads st0 = reads st.
Proof. simpl. by destruct (clearDenoCache (settings st)). Qed.

(** X11: [import] changes the memory cache in one way only: a resolved
    call leaves the module value under the specifier it was called with,
    all other entries as they were; a rejected call leaves the memory
    cache as it was. *)
Theorem import_updates_only_its_entry
    (H : Host) (fuel : nat) (specifier : string)
    (importMapArg : option ImportMap) (st : TsImporter)
    (r : Settled ModuleValue) (st' : TsImporter) :
  import H fuel specifier importMapArg st = (r, st') ->
  (forall module, r = Resolved module ->
     cache st' = <[specifier := module]> (cache st))
  /\ (forall e, r = Rejected e -> cache st' = cache st).
Proof.
  unfold import. intros Hrun.
  destruct (cache st !! specifier) as [m|] eqn:Hhit.
  { simplify_eq. split; [|done]. intros module [= ->].
    by rewrite insert_id. }
  destruct (URL_new H specifier _) as [url|];
    [|simplify_eq; split; [done | by intros]].
  destruct (import_clearing_fields url st) as (_ & HC & _).
  set (st0 := if clearDenoCache (settings st)
              then clearDenoCacheForUrl url st else st) in *.
  destruct (discoverImportMap H st0 url importMapArg) as [eff|];
    [|simplify_eq; split; [done | by intros]].
  destruct (transformModule H fuel url eff st0) as [t st1] eqn:Ht.
  apply (transformModule_framed H) in Ht as [Hg _].
  pose proof (grows_cache _ _ _ Hg) as HC1.
  destruct t as [transformedUrl | e | |]; simplify_eq;
    try (split; [done | by intros; congruence]).
  destruct (dynamicImport H (disk st1) transformedUrl); simplify_eq.
  - split; [|done]. intros module [= ->]. simpl. by rewrite HC1, HC.
  - split; [done|]. intros. congruence.
Qed.

Lemma import_updates_only_its_entry_witness :
  (forall module,
     Resolved "export leaf" = Resolved module ->
     cache (import Fixture.host 3 "file:///app/leaf.ts" None
              Fixture.afterImport).2
     = <["file:///app/leaf.ts" := module]> (cache Fixture.afterImport))
  /\ (forall e,
        Resolved "export leaf" = Rejected e ->
        cache (import Fixture.host 3 "file:///app/leaf.ts" None
                 Fixture.afterImport).2
        = cache Fixture.afterImport).
Proof.
  apply (import_updates_only_its_entry Fixture.host 3 "file:///app/leaf.ts"
           None Fixture.afterImport).
  vm_compute. reflexivity.
Defined.

(** X12: the memory cache is keyed by the specifier as written, the
    records by the resolved URL.  After a resolved [import] of one
    specifier, the [import] of another specifier that resolves to the same
    URL misses the memory cache but finds the record: it reads no source,
    writes no file, and loads the same cache location, so that it
    resolves to the same module value. *)
Theorem alias_reuses_the_record
    (H : Host) (fuel fuel2 : nat) (specifier alias : string)
    (im1 im2 : option ImportMap) (st : TsImporter) (url : string)
    (module : ModuleValue) (st1 : TsImporter) :
  registeredInFlight st ->
  cache st !! specifier = None ->
  URL_new H specifier (Some (import_meta_url H)) = Some url ->
  URL_new H alias (Some (import_meta_url H)) = Some url ->
  import H fuel specifier im1 st = (Resolved module, st1) ->
  cache st1 !! alias = None ->
  is_Some (discoverImportMap H st1 url im2) ->
  (import H (S fuel2) alias im2 st1).1 = Resolved module
  /\ reads (import H (S fuel2) alias im2 st1).2 = reads st1
  /\ disk (import H (S fuel2) alias im2 st1).2 = disk st1
  /\ transformedModules (import H (S fuel2) alias im2 st1).2
     = transformedModules st1
  /\ cache (import H (S fuel2) alias im2 st1).2
     = <[alias := module]> (cache st1).
Proof.
  intros Hreg Hmiss Hurl Halias Hrun Hmiss2 [eff2 Heff2].
  (* the first call *)
  unfold import in Hrun. rewrite Hmiss, Hurl in Hrun.
  destruct (import_clearing_fields url st) as (_ & _ & HT & HP & _).
  set (st0 := if clearDenoCache (settings st)
              then clearDenoCacheForUrl url st else st) in *.
  destruct (discoverImportMap H st0 url im1) as [eff|]; [|done].
  destruct (transformModule H fuel url eff st0) as [t sta] eqn:Ht.
  destruct t as [loc | | |]; try done.
  destruct (dynamicImport H (disk sta) loc) as [m|] eqn:Hload; [|done].
  simplify_eq.
  assert (transformedModules sta !! url = Some loc) as Hrec.
  { eapply transformModule_registers; [|done].
    rewrite HP, HT. intros Hin. by apply Hreg. }
  (* the second call *)
  unfold import. rewrite Hmiss2, Halias.
  match goal with
  | |- context [discoverImportMap H ?s url im2] =>
      destruct (import_clearing_fields url
                  (set_cache (insert specifier module) sta))
        as (HS2 & HC2 & HT2 & _ & HD2 & HR2);
      set (st2 := s) in *
  end.
  assert (discoverImportMap H st2 url im2 = Some eff2) as ->.
  { rewrite <- Heff2. unfold discoverImportMap. by rewrite HS2. }
  rewrite (transformModule_memo H fuel2 url eff2 st2 loc)
    by (by rewrite HT2).
  destruct (afterCacheClearing_fields H url st2)
    as (_ & HC3 & HT3 & _ & _ & HD3 & HR3 & _).
  rewrite HD3, HD2. simpl disk. rewrite Hload. simpl.
  rewrite HR3, HR2, HD3, HD2, HT3, HT2, HC3, HC2. done.
Qed.

Lemma alias_reuses_the_record_witness :
  (import Fixture.host 1 "file:///lib/rel.ts" (Some Fixture.tableApp)
     Fixture.afterRelative).1 = Resolved "export rel"
  /\ reads (import Fixture.host 1 "file:///lib/rel.ts"
              (Some Fixture.tableApp) Fixture.afterRelative).2
     = reads Fixture.afterRelative
  /\ disk (import Fixture.host 1 "file:///lib/rel.ts"
             (Some Fixture.tableApp) Fixture.afterRelative).2
     = disk Fixture.afterRelative
  /\ transformedModules
       (import Fixture.host 1 "file:///lib/rel.ts" (Some Fixture.tableApp)
          Fixture.afterRelative).2
     = transformedModules Fixture.afterRelative
  /\ cache (import Fixture.host 1 "file:///lib/rel.ts"
              (Some Fixture.tableApp) Fixture.afterRelative).2
     = <["file:///lib/rel.ts" := "export rel"]> (cache Fixture.afterRelative).
Proof.
  apply (alias_reuses_the_record Fixture.host 3 0 "./rel.ts"
           "file:///lib/rel.ts" None (Some Fixture.tableApp) Fixture.fresh
           "file:///lib/rel.ts").
  - intros u Hu. vm_compute in Hu. discriminate Hu.
  - vm_compute. reflexivity.
  - vm_compute. reflexivity.
  - vm_compute. reflexivity.
  - vm_compute. reflexivity.
  - vm_compute. reflexivity.
  - vm_compute. by eexists.
Defined.

(** ** Merging the discovered import map, continued *)

(** X13: the scopes of the discovered import map are merged scope by
    scope, not key by key: for a scope prefix the discovered map defines,
    the merged table has the discovered scope as a whole, and the keys the
    instance's import map has under that prefix are gone; a scope only the
    instance's map defines is kept.  The merged map always has a
    [scopes] table. *)
Theorem discovered_scope_replaces_whole_scope
    (effectiveImportMap : option ImportMap) (config : ImportMap)
    (scope : string) :
  NoDup (map fst (default [] (scopes config))) ->
  exists merged,
    scopes (mergeDiscovered effectiveImportMap (Some config)) = Some merged
    /\ Obj.get merged scope
       = match Obj.get (default [] (scopes config)) scope with
         | Some table => Some table
         | None =>
             Obj.get
               (Obj.assign []
                  (match effectiveImportMap with
                   | Some m => default [] (scopes m)
                   | None => []
                   end)) scope
         end.
Proof.
  intros Hnd. eexists. split; [reflexivity|]. by apply get_spread.
Qed.

Lemma discovered_scope_replaces_whole_scope_witness :
  exists merged,
    scopes
      (mergeDiscovered
         (Some (mkImportMap []
                  (Some [("file:///app/", [("@a", "A1"); ("@b", "B1")])])))
         (Some (mkImportMap []
                  (Some [("file:///app/", [("@a", "A2")])]))))
    = Some merged
    /\ Obj.get merged "file:///app/"
       = match Obj.get
                 (default []
                    (scopes
                       (mkImportMap []
                          (Some [("file:///app/", [("@a", "A2")])]))))
                 "file:///app/" with
         | Some table => Some table
         | None =>
             Obj.get
               (Obj.assign []
                  (default []
                     (scopes
                        (mkImportMap []
                           (Some
                              [("file:///app/",
                                [("@a", "A1"); ("@b", "B1")])])))))
               "file:///app/"
         end.
Proof.
  apply (discovered_scope_replaces_whole_scope
           (Some (mkImportMap []
                    (Some [("file:///app/", [("@a", "A1"); ("@b", "B1")])])))
           (mkImportMap [] (Some [("file:///app/", [("@a", "A2")])]))).
  simpl. apply NoDup_singleton.
Defined.

(** ** Applying the replacements to the text *)

Lemma split_nonempty (sep : ascii) (s : string) : TextEdit.split sep s <> [].
Proof.
  induction s as [|c s IH]; simpl; [done|].
  destruct (Ascii.eqb c sep); [done|]. by destruct (TextEdit.split sep s).
Qed.

Lemma join_cons (sep : ascii) (x y : string) (l : list string) :
  TextEdit.join sep (x :: y :: l)
  = x +:+ String sep (TextEdit.join sep (y :: l)).
Proof. reflexivity. Qed.

Lemma join_split (sep : ascii) (s : string) :
  TextEdit.join sep (TextEdit.split sep s) = s.
Proof.
  induction s as [|c s IH]; [done|]. simpl.
  pose proof (split_nonempty sep s) as Hne.
  destruct (TextEdit.split sep s) as [|y l]; [done|].
  destruct (Ascii.eqb c sep) eqn:Hc.
  - apply Ascii.eqb_eq in Hc as ->. by rewrite join_cons, IH.
  - destruct l as [|z l].
    + unfold TextEdit.join in *. simpl in *. congruence.
    + rewrite join_cons in *. by rewrite append_cons, IH.
Qed.

Section Sort.

Context {A : Type} (compare : A -> A -> Z).

Lemma insertSorted_Permutation (x : A) (l : list A) :
  TextEdit.insertSorted compare x l ≡ₚ x :: l.
Proof.
  induction l as [|y l IH]; simpl; [done|].
  case_match; [done|]. rewrite IH. apply Permutation_swap.
Qed.

Lemma sort_Permutation (l : list A) : TextEdit.sort compare l ≡ₚ l.
Proof.
  induction l as [|x l IH]; [done|].
  unfold TextEdit.sort in *. simpl.
  by rewrite insertSorted_Permutation, IH.
Qed.

Hypothesis total :
  forall a b, (compare a b <= 0)%Z \/ (compare b a <= 0)%Z.
Hypothesis trans :
  forall a b c,
    (compare a b <= 0)%Z -> (compare b c <= 0)%Z -> (compare a c <= 0)%Z.

Lemma insertSorted_sorted (x : A) (l : list A) :
  StronglySorted (fun a b => (compare a b <= 0)%Z) l ->
  StronglySorted (fun a b => (compare a b <= 0)%Z)
    (TextEdit.insertSorted compare x l).
Proof.
  induction 1 as [|y l Hs IH Hy]; simpl.
  - repeat constructor.
  - destruct (Z.leb_spec (compare x y) 0) as [Hle|Hgt].
    + constructor; [by constructor|]. constructor; [done|].
      eapply Forall_impl; [exact Hy|]. intros z Hz. by eapply trans.
    + constructor; [done|]. rewrite insertSorted_Permutation.
      constructor; [|done]. destruct (total x y); [lia | done].
Qed.

Lemma sort_sorted (l : list A) :
  StronglySorted (fun a b => (compare a b <= 0)%Z) (TextEdit.sort compare l).
Proof.
  induction l as [|x l IH]; [constructor|].
  by apply insertSorted_sorted.
Qed.

End Sort.

Lemma compareReplacements_le (a b : TextEdit.Replacement) :
  (TextEdit.compareReplacements a b <= 0)%Z
  <-> TextEdit.startLine b < TextEdit.startLine a
      \/ (TextEdit.startLine a = TextEdit.startLine b
          /\ TextEdit.startChar b <= TextEdit.startChar a).
Proof.
  unfold TextEdit.compareReplacements.
  destruct (Nat.eqb_spec (TextEdit.startLine a) (TextEdit.startLine b));
    simpl; lia.
Qed.

Lemma NoDup_map_inj {A B : Type} (f : A -> B) (l : list A) (x y : A) :
  NoDup (map f l) -> x ∈ l -> y ∈ l -> f x = f y -> x = y.
Proof.
  induction l as [|z l IH]; intros Hnd Hx Hy Hf.
  { by apply elem_of_nil in Hx. }
  simpl in Hnd. apply NoDup_cons in Hnd as [Hn Hnd].
  apply elem_of_cons in Hx as [->|Hx]; apply elem_of_cons in Hy as [->|Hy].
  - done.
  - destruct Hn. rewrite Hf. by apply list_elem_of_In, in_map, list_elem_of_In.
  - destruct Hn. rewrite <- Hf.
    by apply list_elem_of_In, in_map, list_elem_of_In.
  - by apply IH.
Qed.

Lemma editLines_none (lines : list string)
    (rs : list TextEdit.Replacement) :
  TextEdit.editLines lines rs = None
  <-> Exists (fun r => length lines <= TextEdit.startLine r) rs.
Proof.
  revert lines. induction rs as [|r rs IH]; intros lines; simpl.
  - split; [done|]. intros Hex. inversion Hex.
  - rewrite Exists_cons.
    destruct (lines !! TextEdit.startLine r) as [line|] eqn:E.
    + rewrite IH, length_insert. apply lookup_lt_Some in E.
      split; [by right|]. intros [?|?]; [lia | done].
    + apply lookup_ge_None in E. split; [by left | done].
Qed.

(** X14: without replacements the text comes back unchanged: splitting
    at the line breaks and joining again is the identity. *)
Theorem no_replacement_returns_the_source (sourceCode : string) :
  TextEdit.applyReplacements sourceCode [] = Some sourceCode.
Proof.
  unfold TextEdit.applyReplacements. simpl. by rewrite join_split.
Qed.

(** X15: [applyReplacements] throws exactly when a replacement starts on
    a line the text does not have; neither the columns nor the end line
    of a span can make it throw. *)
Theorem replacement_beyond_the_last_line_throws
    (sourceCode : string) (replacements : list TextEdit.Replacement) :
  TextEdit.applyReplacements sourceCode replacements = None
  <-> exists r,
        r ∈ replacements
        /\ length (TextEdit.split TextEdit.newline sourceCode)
           <= TextEdit.startLine r.
Proof.
  unfold TextEdit.applyReplacements.
  destruct (TextEdit.editLines _ _) as [out|] eqn:E; simpl.
  - split; [done|]. intros (r & Hin & Hr).
    assert (TextEdit.editLines (TextEdit.split TextEdit.newline sourceCode)
              (TextEdit.sort TextEdit.compareReplacements replacements)
            = None) as Hnone; [|congruence].
    apply editLines_none, Exists_exists. exists r.
    by rewrite sort_Permutation.
  - split; [|done]. intros _.
    apply editLines_none, Exists_exists in E as (r & Hin & Hr).
    exists r. by rewrite sort_Permutation in Hin.
Qed.

(** X16: the order in which the replacements are listed does not
    matter, as long as no two of them start at the same place: the sort
    brings any listing into the same order. *)
Theorem replacement_order_is_irrelevant
    (sourceCode : string) (rs rs' : list TextEdit.Replacement) :
  rs ≡ₚ rs' ->
  NoDup (map TextEdit.position rs) ->
  TextEdit.applyReplacements sourceCode rs
  = TextEdit.applyReplacements sourceCode rs'.
Proof.
  intros Hp Hnd. unfold TextEdit.applyReplacements. do 2 f_equal.
  apply (StronglySorted_unique_strong
           (fun a b => (TextEdit.compareReplacements a b <= 0)%Z)).
  - intros x1 x2 H1 H2 Hle1 Hle2.
    rewrite sort_Permutation in H1, H2. rewrite <- Hp in H2.
    apply (NoDup_map_inj TextEdit.position rs); [done..|].
    apply compareReplacements_le in Hle1, Hle2.
    unfold TextEdit.position. f_equal; lia.
  - apply sort_sorted.
    + intros a b. rewrite !compareReplacements_le. lia.
    + intros a b c. rewrite !compareReplacements_le. lia.
  - apply sort_sorted.
    + intros a b. rewrite !compareReplacements_le. lia.
    + intros a b c. rewrite !compareReplacements_le. lia.
  - by rewrite !sort_Permutation.
Qed.

Lemma replacement_order_is_irrelevant_witness :
  TextEdit.applyReplacements "import 'a' 'b'"
    [TextEdit.mkReplacement 0 7 0 10 "a" "A";
     TextEdit.mkReplacement 0 11 0 14 "b" "B"]
  = TextEdit.applyReplacements "import 'a' 'b'"
      [TextEdit.mkReplacement 0 11 0 14 "b" "B";
       TextEdit.mkReplacement 0 7 0 10 "a" "A"].
Proof.
  apply (replacement_order_is_irrelevant "import 'a' 'b'").
  - apply Permutation_swap.
  - simpl. apply NoDup_cons. split.
    + intros Hin. apply list_elem_of_singleton in Hin. discriminate Hin.
    + apply NoDup_singleton.
Defined.

Lemma take_at (p r : string) (n : nat) :
  n = String.length p -> TextEdit.take (p +:+ r) n = p.
Proof. intros ->. apply take_append. Qed.

Lemma slice_at (p r : string) (n : nat) :
  n = String.length p -> Js.slice (p +:+ r) n = r.
Proof. intros ->. apply slice_append. Qed.

(** X17: on a line of ASCII text, two spans are both replaced where the
    dependency graph says they are, although the first replacement
    changes the length of the line: the later span is replaced first.
    With the line being [a x1 b x2 c] and the spans those of [x1] and
    [x2], the line becomes [a "n1" b "n2" c], whichever of the two is
    listed first, and the other lines stay.  (On ASCII text the columns
    of the graph, which count UTF-16 code units, are the offsets at which
    the model cuts.) *)
Theorem replacements_on_one_line_do_not_shift
    (sourceCode : string) (i : nat) (a x1 b x2 c : string)
    (s1 n1 s2 n2 : string) :
  TextEdit.split TextEdit.newline sourceCode !! i
  = Some (a +:+ x1 +:+ b +:+ x2 +:+ c) ->
  Js.isAscii (a +:+ x1 +:+ b +:+ x2 +:+ c) = true ->
  x1 <> EmptyString ->
  let r1 :=
    TextEdit.createReplacement
      (TextEdit.mkSpan
         (TextEdit.mkPosition i (String.length a))
         (TextEdit.mkPosition i (String.length a + String.length x1)))
      s1 n1 in
  let r2 :=
    TextEdit.createReplacement
      (TextEdit.mkSpan
         (TextEdit.mkPosition i
            (String.length a + String.length x1 + String.length b))
         (TextEdit.mkPosition i
            (String.length a + String.length x1 + String.length b
             + String.length x2)))
      s2 n2 in
  let edited :=
    Some
      (TextEdit.join TextEdit.newline
         (<[i := a +:+ TextEdit.quoted n1 +:+ b +:+ TextEdit.quoted n2
                 +:+ c]>
            (TextEdit.split TextEdit.newline sourceCode))) in
  TextEdit.applyReplacements sourceCode [r1; r2] = edited
  /\ TextEdit.applyReplacements sourceCode [r2; r1] = edited.
Proof.
  intros Hline _ Hx1 r1 r2 edited.
  assert (0 < String.length x1) as Hlen.
  { destruct x1; [done | simpl; lia]. }
  assert (TextEdit.sort TextEdit.compareReplacements [r1; r2] = [r2; r1])
    as Hsort1.
  { unfold TextEdit.sort. simpl.
    unfold TextEdit.compareReplacements. simpl.
    rewrite Nat.eqb_refl. simpl.
    destruct (Z.leb_spec
                (Z.of_nat (String.length a + String.length x1
                           + String.length b)
                 - Z.of_nat (String.length a)) 0); [lia | done]. }
  assert (TextEdit.sort TextEdit.compareReplacements [r2; r1] = [r2; r1])
    as Hsort2.
  { unfold TextEdit.sort. simpl.
    unfold TextEdit.compareReplacements. simpl.
    rewrite Nat.eqb_refl. simpl.
    destruct (Z.leb_spec
                (Z.of_nat (String.length a)
                 - Z.of_nat (String.length a + String.length x1
                             + String.length b)) 0); [done | lia]. }
  assert (TextEdit.editLines (TextEdit.split TextEdit.newline sourceCode)
            [r2; r1]
          = Some
              (<[i := a +:+ TextEdit.quoted n1 +:+ b +:+ TextEdit.quoted n2
                      +:+ c]>
                 (TextEdit.split TextEdit.newline sourceCode))) as Hedit.
  { simpl. rewrite Hline.
    rewrite list_lookup_insert_eq by (by eapply lookup_lt_Some).
    rewrite list_insert_insert_eq.
    assert (TextEdit.take (a +:+ x1 +:+ b +:+ x2 +:+ c)
              (String.length a + String.length x1 + String.length b)
            = a +:+ x1 +:+ b) as ->.
    { replace (a +:+ x1 +:+ b +:+ x2 +:+ c)
        with ((a +:+ x1 +:+ b) +:+ x2 +:+ c)
        by (by rewrite !append_assoc).
      apply take_at. rewrite !length_append. lia. }
    assert (Js.slice (a +:+ x1 +:+ b +:+ x2 +:+ c)
              (String.length a + String.length x1 + String.length b
               + String.length x2)
            = c) as ->.
    { replace (a +:+ x1 +:+ b +:+ x2 +:+ c)
        with ((a +:+ x1 +:+ b +:+ x2) +:+ c)
        by (by rewrite !append_assoc).
      apply slice_at. rewrite !length_append. lia. }
    rewrite !append_assoc.
    rewrite (take_at a) by done.
    assert (Js.slice (a +:+ x1 +:+ b +:+ TextEdit.quoted n2 +:+ c)
              (String.length a + String.length x1)
            = b +:+ TextEdit.quoted n2 +:+ c) as ->.
    { replace (a +:+ x1 +:+ b +:+ TextEdit.quoted n2 +:+ c)
        with ((a +:+ x1) +:+ b +:+ TextEdit.quoted n2 +:+ c)
        by (by rewrite !append_assoc).
      apply slice_at. rewrite !length_append. lia. }
    done. }
  unfold TextEdit.applyReplacements, edited.
  rewrite Hsort1, Hsort2, Hedit. done.
Qed.

Lemma replacements_on_one_line_do_not_shift_witness :
  let r1 :=
    TextEdit.createReplacement
      (TextEdit.mkSpan (TextEdit.mkPosition 1 7) (TextEdit.mkPosition 1 10))
      "a" "file:///cache/a.js" in
  let r2 :=
    TextEdit.createReplacement
      (TextEdit.mkSpan (TextEdit.mkPosition 1 11) (TextEdit.mkPosition 1 14))
      "b" "B" in
  let edited :=
    Some
      (TextEdit.join TextEdit.newline
         (<[1 := "import " +:+ TextEdit.quoted "file:///cache/a.js" +:+ " "
                 +:+ TextEdit.quoted "B" +:+ ";"]>
            (TextEdit.split TextEdit.newline
               ("// head" +:+ String TextEdit.newline "import 'a' 'b';")))) in
  TextEdit.applyReplacements
    ("// head" +:+ String TextEdit.newline "import 'a' 'b';") [r1; r2]
  = edited
  /\ TextEdit.applyReplacements
       ("// head" +:+ String TextEdit.newline "import 'a' 'b';") [r2; r1]
     = edited.
Proof.
  apply (replacements_on_one_line_do_not_shift
           ("// head" +:+ String TextEdit.newline "import 'a' 'b';") 1
           "import " "'a'" " " "'b'" ";" "a" "file:///cache/a.js" "b" "B").
  - vm_compute. reflexivity.
  - vm_compute. reflexivity.
  - discriminate.
Defined.

(** ** The cache file of a module with imports *)

(** X18: a module with imports resolves to the location computed from
    its text after the first pass, that is before any of its dependencies
    is transformed; the file written there is the text after the second
    pass, under the banner that names the original URL.  The location
    therefore does not tell which cache locations the dependencies got. *)
Theorem module_with_imports_is_cached_under_banner
    (H : Host) (fuel : nat) (moduleUrl : string) (im : option ImportMap)
    (st : TsImporter) (originalCode transpiledCode replacedCode : string)
    (calls : list string) (cacheUrl : string) :
  let replacer := applyImportMapToSpecifier moduleUrl im in
  let transformedCode := replaceImportMeta H replacedCode moduleUrl in
  let edges :=
    dependencyEdges (collectedSpecifiers replacer calls)
      (collectedLocals calls) in
  registeredInFlight st ->
  pending H st < S fuel ->
  transformedModules st !! moduleUrl = None ->
  (readModuleContent H moduleUrl st).1 = Resolved originalCode ->
  transpileTypeScript H originalCode (tsTranspileOptions (settings st))
  = Some transpiledCode ->
  negb (hasImports H transpiledCode)
  && negb (hasImportMetaUrl H transpiledCode) = false ->
  replaceImports H moduleUrl transpiledCode replacer
  = Some (replacedCode, calls) ->
  getCacheUrl H st moduleUrl transformedCode im = Some cacheUrl ->
  (forall e, e ∈ edges -> is_Some (fallbackUrl H e moduleUrl)) ->
  (forall m,
      is_Some (replaceImports H moduleUrl transformedCode (cachedOr m))) ->
  writable H cacheUrl = true ->
  exists m finalCode st',
    transformModule H (S fuel) moduleUrl im st = (Resolved cacheUrl, st')
    /\ (if Nat.ltb 0 (size m)
        then option_map fst
               (replaceImports H moduleUrl transformedCode (cachedOr m))
        else Some transformedCode) = Some finalCode
    /\ disk st' !! cacheUrl
       = Some (createOriginalUrlComment H moduleUrl +:+ finalCode)
    /\ transformedModules st' !! moduleUrl = Some cacheUrl
    /\ moduleUrl ∉ processingModules st'.
Proof.
  intros replacer transformedCode edges Hreg Hpend Hnone Hread Hstrip Hslow
    Hfirst Hcache Hres Hsecond Hwrite.
  assert (moduleUrl ∉ processingModules st) as Hnotin.
  { intros Hin. apply Hreg in Hin. apply elem_of_dom in Hin as [? ?].
    congruence. }
  destruct (slow_path_run H fuel moduleUrl im st originalCode transpiledCode
              replacedCode calls cacheUrl Hreg Hpend Hnone Hread Hstrip Hslow
              Hfirst Hcache Hres) as (m & st3 & Hrun & Hrec).
  fold transformedCode in Hrun.
  destruct (Hsecond m) as [[finalCode2 calls2] Hsnd].
  assert ((if Nat.ltb 0 (size m)
           then option_map fst
                  (replaceImports H moduleUrl transformedCode (cachedOr m))
           else Some transformedCode)
          = Some (if Nat.ltb 0 (size m) then finalCode2
                  else transformedCode)) as Hfinal.
  { rewrite Hsnd. by destruct (Nat.ltb 0 (size m)). }
  rewrite Hfinal in Hrun. unfold writeToCache in Hrun.
  rewrite Hwrite in Hrun.
  exists m, (if Nat.ltb 0 (size m) then finalCode2 else transformedCode).
  eexists. split; [by rewrite transformModule_fresh, Hrun by done|].
  split; [done|]. split; [simpl; apply lookup_insert_eq|].
  split; [done|]. simpl. set_solver.
Qed.

Lemma module_with_imports_is_cached_under_banner_witness :
  exists m finalCode st',
    transformModule Fixture.host 10 Fixture.mainUrl (Some Fixture.tableApp)
      Fixture.fresh
    = (Resolved Fixture.mainCache, st')
    /\ (if Nat.ltb 0 (size m)
        then option_map fst
               (replaceImports Fixture.host Fixture.mainUrl
                  (replaceImportMeta Fixture.host Fixture.mainReplaced
                     Fixture.mainUrl) (cachedOr m))
        else Some (replaceImportMeta Fixture.host Fixture.mainReplaced
                     Fixture.mainUrl)) = Some finalCode
    /\ disk st' !! Fixture.mainCache
       = Some (createOriginalUrlComment Fixture.host Fixture.mainUrl
               +:+ finalCode)
    /\ transformedModules st' !! Fixture.mainUrl = Some Fixture.mainCache
    /\ Fixture.mainUrl ∉ processingModules st'.
Proof.
  apply (module_with_imports_is_cached_under_banner Fixture.host 9
           Fixture.mainUrl (Some Fixture.tableApp) Fixture.fresh
           Fixture.mainCode Fixture.mainCode Fixture.mainReplaced
           Fixture.mainCalls Fixture.mainCache).
  - intros u Hu. vm_compute in Hu. discriminate Hu.
  - vm_compute. lia.
  - vm_compute. reflexivity.
  - vm_compute. reflexivity.
  - vm_compute. reflexivity.
  - vm_compute. reflexivity.
  - vm_compute. reflexivity.
  - vm_compute. reflexivity.
  - intros e He. unfold fallbackUrl.
    destruct (isRelativeOrFileUrl e) eqn:Hrel; [|by eexists].
    vm_compute in He.
    repeat (apply elem_of_cons in He as [-> | He]; [by eexists|]).
    by apply elem_of_nil in He.
  - intros m. apply replaceImports_total. intros s. by eexists.
  - vm_compute. reflexivity.
Defined.

(** ** Failure of a dependency: what the text gets *)











(** The run of the small platform behind the witness: [./missing.ts]
    cannot be read; [main.ts] is cached all the same, with the two other
    imports rewritten to cache locations and the failed one to its
    resolved URL, and one warning is logged. *)
Example partial_failure_run :
  (transformModule Fixture.host 10 Fixture.mainUrl (Some Fixture.tableApp)
     Fixture.fresh).1 = Resolved Fixture.mainCache
  /\ warnings Fixture.afterMain
     = ["Failed to transform ./missing.ts: No such file or directory"]
  /\ disk Fixture.afterMain !! Fixture.mainCache
     = Some ("// file:///app/main.ts;" +:+ Fixture.mainFinal)
  /\ transformedModules Fixture.afterMain !! "file:///app/missing.ts" = None
  /\ transformedModules Fixture.afterMain !! "file:///app/leaf.ts"
     = Some "file:///cache/@app=file:///app|!export leaf!file:///app/leaf.ts"
  /\ transformedModules Fixture.afterMain !! "file:///app/other.ts"
     = Some "file:///cache/@app=file:///app|!export other!file:///app/other.ts".
Proof. vm_compute. repeat split. Qed.

